(** * Arco personalization: persona quiz and page assembly

    A shallow embedding of the persona classifier ([quiz-logic.js]), the
    quiz block that persists the persona, and the assembly engine
    ([assembly-engine.js]), with the properties claimed of them. *)

From Stdlib Require Import ZArith Ascii String List Lia.
From stdpp Require Import base option list strings gmap fin_maps pretty.

Local Open Scope string_scope.
Local Open Scope Z_scope.

Set Warnings "-register-all".

(** ** The fragment of JavaScript the sources rely on *)
Module Js.

(** Exceptions the modelled code can raise. *)
Inductive error := TypeError | URIError.

(** Outcome of a call: a normal completion or a thrown exception. *)
Inductive result (A : Type) :=
| Returns (a : A)
| Throws (e : error).
Arguments Returns {A} a.
Arguments Throws {A} e.

Definition bind {A B} (r : result A) (k : A → result B) : result B :=
  match r with
  | Returns a => k a
  | Throws e => Throws e
  end.

Definition map_result {A B} (f : A → B) (r : result A) : result B :=
  bind r (λ a, Returns (f a)).

(** Members every plain object inherits from [Object.prototype]: the
    built-in methods, and the prototype object itself under [__proto__]. *)
Inductive builtin :=
| BuiltinFunction (name : string)
| BuiltinObjectPrototype.

Definition Object_prototype_methods : list string :=
  [ "hasOwnProperty"; "isPrototypeOf"; "propertyIsEnumerable";
    "toLocaleString"; "toString"; "valueOf";
    "__defineGetter__"; "__defineSetter__";
    "__lookupGetter__"; "__lookupSetter__" ].

Definition Object_prototype (k : string) : option builtin :=
  if decide (k = "constructor") then Some (BuiltinFunction "Object")
  else if decide (k = "__proto__") then Some BuiltinObjectPrototype
  else if decide (k ∈ Object_prototype_methods) then Some (BuiltinFunction k)
  else None.

(** What a template literal prints for a built-in.  The text of a native
    function is the engine's; this is the one V8 gives. *)
Definition builtin_to_string (b : builtin) : string :=
  match b with
  | BuiltinFunction name => "function " +:+ name +:+ "() { [native code] }"
  | BuiltinObjectPrototype => "[object Object]"
  end.

(** Result of [o[k]] on an object literal [o] whose own properties have
    type [A]: an own property, a member found on the prototype chain, or
    nothing ([undefined]). *)
Inductive member (A : Type) :=
| Own (a : A)
| Inherited (b : builtin)
| Missing.
Arguments Own {A} a.
Arguments Inherited {A} b.
Arguments Missing {A}.

Definition get {A} (o : gmap string A) (k : string) : member A :=
  match o !! k with
  | Some a => Own a
  | None =>
      match Object_prototype k with
      | Some b => Inherited b
      | None => Missing
      end
  end.

(** A persona tag as the functions receive it: a string, [null] or
    [undefined]. *)
Inductive tagval :=
| TagUndefined
| TagNull
| TagStr (s : string).

Definition tag_truthy (t : tagval) : bool :=
  match t with
  | TagStr s => negb (String.eqb s EmptyString)
  | _ => false
  end.

(** The property key [o[t]] uses, and the text a template literal or
    [encodeURIComponent] sees. *)
Definition tag_to_string (t : tagval) : string :=
  match t with
  | TagUndefined => "undefined"
  | TagNull => "null"
  | TagStr s => s
  end.

(** [Array.prototype.forEach]: the callback receives the element and its
    index; the state it mutates is threaded through. *)
Fixpoint forEach_from {A St} (f : A → nat → St → St) (l : list A) (i : nat) (s : St) : St :=
  match l with
  | [] => s
  | x :: l' => forEach_from f l' (S i) (f x i s)
  end.

Definition forEach {A St} (f : A → nat → St → St) (l : list A) (s : St) : St :=
  forEach_from f l 0%nat s.

(** [forEach] with a callback that may throw: the first exception ends
    the loop. *)
Fixpoint forEachE_from {A St} (f : A → nat → St → result St) (l : list A) (i : nat)
    (s : St) : result St :=
  match l with
  | [] => Returns s
  | x :: l' => bind (f x i s) (forEachE_from f l' (S i))
  end.

Definition forEachE {A St} (f : A → nat → St → result St) (l : list A) (s : St)
  : result St :=
  forEachE_from f l 0%nat s.

(** [arr.slice(0, end)] for an integer [end]: a negative [end] counts
    from the end of the array. *)
Definition slice0 {A} (arr : list A) (end_ : Z) : list A :=
  let len := Z.of_nat (length arr) in
  let final := if end_ <? 0 then Z.max (len + end_) 0 else Z.min end_ len in
  take (Z.to_nat final) arr.

Notation "x ← r ; k" := (bind r (λ x, k))
  (at level 20, r at level 100, k at level 200, only parsing).

(** *** Values

    Content objects carry arbitrary data.  An object is the finite map of
    its own enumerable data properties; numbers are integers (the code
    modelled here only passes them along). *)
Inductive value :=
| VUndefined
| VNull
| VBool (b : bool)
| VNum (n : Z)
| VStr (s : string)
| VArr (items : list value)
| VObj (props : gmap string value)
| VBuiltin (b : builtin).

Definition object (props : list (string * value)) : value :=
  VObj (list_to_map props).

Definition truthy (v : value) : bool :=
  match v with
  | VUndefined | VNull => false
  | VBool b => b
  | VNum n => negb (n =? 0)
  | VStr s => negb (String.eqb s EmptyString)
  | VArr _ | VObj _ | VBuiltin _ => true
  end.

(** [a || b]. *)
Definition or_else (a b : value) : value :=
  if truthy a then a else b.

Definition member_value (m : member value) : value :=
  match m with
  | Own v => v
  | Inherited b => VBuiltin b
  | Missing => VUndefined
  end.

Definition tag_value (t : tagval) : value :=
  match t with
  | TagUndefined => VUndefined
  | TagNull => VNull
  | TagStr s => VStr s
  end.

(** Index-keyed properties of an array or a string: ["0"], ["1"], ... *)
Definition indexed {A} (f : A → value) (l : list A) : gmap string value :=
  list_to_map (imap (λ i a, (pretty i, f a)) l).

Definition char_value (c : ascii) : value :=
  VStr (String c EmptyString).

(** The own enumerable properties [Object.assign] copies from a source.
    Strings are read one property per character of the model string. *)
Definition own_enumerable (v : value) : gmap string value :=
  match v with
  | VObj props => props
  | VArr items => indexed id items
  | VStr s => indexed char_value (list_ascii_of_string s)
  | _ => ∅
  end.

(** The own property of [v] under key [k], if any.  Of the own
    properties of a built-in only a function's [name] is listed: the
    others are numbers, functions and prototype objects, which have no
    enumerable property of their own. *)
Definition own_property (v : value) (k : string) : option value :=
  match v with
  | VBuiltin (BuiltinFunction name) =>
      if decide (k = "name") then Some (VStr name) else None
  | VObj props => props !! k
  | VArr items =>
      if decide (k = "length") then Some (VNum (Z.of_nat (length items)))
      else indexed id items !! k
  | VStr s =>
      if decide (k = "length") then Some (VNum (Z.of_nat (String.length s)))
      else indexed char_value (list_ascii_of_string s) !! k
  | _ => None
  end.

(** [Object.assign(target, source)] on a target whose prototype is
    [Object.prototype]: every own enumerable property of the source is
    [Set] on the target.  For the key [__proto__] the [Set] reaches the
    accessor inherited from [Object.prototype] unless the target has an
    own property of that name, and then creates no own property. *)
Definition Object_assign (target source : gmap string value) : gmap string value :=
  (if decide (is_Some (target !! "__proto__")) then source
   else delete "__proto__" source) ∪ target.

(** *** URI component coding

    Model strings are byte strings: a character outside ASCII is the
    bytes of its UTF-8 encoding. *)
Definition unreserved (c : ascii) : bool :=
  let n := N_of_ascii c in
  ((48 <=? n) && (n <=? 57) || (65 <=? n) && (n <=? 90)
   || (97 <=? n) && (n <=? 122))%N
  || bool_decide (c ∈ list_ascii_of_string "-_.!~*'()").

Definition hex_digit (n : N) : ascii :=
  nth (N.to_nat n) (list_ascii_of_string "0123456789ABCDEF") "0"%char.

Definition percent_encode (c : ascii) : list ascii :=
  let n := N_of_ascii c in
  [ "%"%char; hex_digit (n / 16)%N; hex_digit (n mod 16)%N ].

Definition encodeURIComponent (s : string) : string :=
  string_of_list_ascii
    (concat ((λ c, if unreserved c then [c] else percent_encode c)
               <$> list_ascii_of_string s)).

Definition hex_value (c : ascii) : option N :=
  let n := N_of_ascii c in
  if ((48 <=? n) && (n <=? 57))%N then Some (n - 48)%N
  else if ((65 <=? n) && (n <=? 70))%N then Some (n - 55)%N
  else if ((97 <=? n) && (n <=? 102))%N then Some (n - 87)%N
  else None.

(** First pass of [decodeURIComponent]: every [%XX] becomes an escaped
    byte [(true, b)], any other character a literal one [(false, b)]. *)
Fixpoint unescape (s : list ascii) : result (list (bool * N)) :=
  match s with
  | [] => Returns []
  | c :: rest =>
      if Ascii.eqb c "%" then
        match rest with
        | h1 :: h2 :: rest' =>
            match hex_value h1, hex_value h2 with
            | Some a, Some b =>
                map_result (cons (true, (16 * a + b)%N)) (unescape rest')
            | _, _ => Throws URIError
            end
        | _ => Throws URIError
        end
      else map_result (cons (false, N_of_ascii c)) (unescape rest)
  end.

(** The ranges the bytes after a UTF-8 lead byte must lie in. *)
Definition continuation_ranges (lead : N) : option (list (N * N)) :=
  (if (194 <=? lead) && (lead <=? 223) then Some [(128, 191)]
   else if lead =? 224 then Some [(160, 191); (128, 191)]
   else if lead =? 237 then Some [(128, 159); (128, 191)]
   else if (225 <=? lead) && (lead <=? 239) then Some [(128, 191); (128, 191)]
   else if lead =? 240 then Some [(144, 191); (128, 191); (128, 191)]
   else if (241 <=? lead) && (lead <=? 243)
        then Some [(128, 191); (128, 191); (128, 191)]
   else if lead =? 244 then Some [(128, 143); (128, 191); (128, 191)]
   else None)%N.

(** Second pass: an escaped byte above 127 must start a well-formed
    UTF-8 sequence made of escaped bytes only. *)
Fixpoint decode_octets (toks : list (bool * N)) (pending : list (N * N))
  : result (list N) :=
  match toks with
  | [] => match pending with [] => Returns [] | _ => Throws URIError end
  | (escaped, b) :: rest =>
      match pending with
      | (lo, hi) :: pending' =>
          if escaped && (lo <=? b)%N && (b <=? hi)%N
          then map_result (cons b) (decode_octets rest pending')
          else Throws URIError
      | [] =>
          if escaped && (128 <=? b)%N then
            match continuation_ranges b with
            | Some ranges => map_result (cons b) (decode_octets rest ranges)
            | None => Throws URIError
            end
          else map_result (cons b) (decode_octets rest [])
      end
  end.

Definition decodeURIComponent (s : string) : result string :=
  toks ← unescape (list_ascii_of_string s);
  bytes ← decode_octets toks [];
  Returns (string_of_list_ascii (ascii_of_N <$> bytes)).

(** *** The browser state the scripts touch

    An assignment [document.cookie = `name=value;expires=...;path=/;SameSite=Lax`]
    is recorded as one write, with the expiry date kept as its time value
    in milliseconds. *)
Record cookie_write := CookieWrite {
  ck_name : string;
  ck_value : string;
  ck_expires : Z;
  ck_path : string;
  ck_same_site : string
}.

Record browser := Browser {
  cookie_writes : list cookie_write;
  location_href : option string
}.

(** [\s] of a regular expression, on the byte string: the ASCII white
    space, and the UTF-8 encodings of the other white space characters. *)
Definition ascii_space (c : ascii) : bool :=
  let n := N_of_ascii c in ((9 <=? n) && (n <=? 13) || (n =? 32))%N.

Definition space2 (a b : ascii) : bool :=
  ((N_of_ascii a =? 194) && (N_of_ascii b =? 160))%N.

Definition space3 (a b c : ascii) : bool :=
  let '(x, y, z) := (N_of_ascii a, N_of_ascii b, N_of_ascii c) in
  ((x =? 225) && (y =? 154) && (z =? 128)
   || (x =? 226) && (y =? 128)
      && ((128 <=? z) && (z <=? 138) || (z =? 168) || (z =? 169) || (z =? 175))
   || (x =? 226) && (y =? 129) && (z =? 159)
   || (x =? 227) && (y =? 128) && (z =? 128)
   || (x =? 239) && (y =? 187) && (z =? 191))%N.

(** Greedy optional white space: the longest run is dropped. *)
Fixpoint skip_spaces (s : list ascii) : list ascii :=
  match s with
  | [] => []
  | a :: r1 =>
      if ascii_space a then skip_spaces r1
      else
        match r1 with
        | b :: r2 =>
            if space2 a b then skip_spaces r2
            else
              match r2 with
              | c :: r3 => if space3 a b c then skip_spaces r3 else s
              | [] => s
              end
        | [] => s
        end
  end.

(** [prefix] read off the front of [s]. *)
Fixpoint strip_prefix (prefix s : list ascii) : option (list ascii) :=
  match prefix, s with
  | [], _ => Some s
  | p :: prefix', c :: s' => if Ascii.eqb p c then strip_prefix prefix' s' else None
  | _ :: _, [] => None
  end.

(** The run of characters other than a semicolon. *)
Fixpoint up_to_semicolon (s : list ascii) : list ascii :=
  match s with
  | [] => []
  | c :: s' => if Ascii.eqb c ";" then [] else c :: up_to_semicolon s'
  end.

(** A value that is a string, a built-in reached through the prototype
    chain, or [undefined], and the text it is printed as. *)
Inductive strval :=
| StrUndefined
| StrText (s : string)
| StrBuiltin (b : builtin).

Definition strval_to_string (v : strval) : string :=
  match v with
  | StrUndefined => "undefined"
  | StrText s => s
  | StrBuiltin b => builtin_to_string b
  end.

(** [numbers.join(sep)] for an array of integers; an integer below
    [10^21] in absolute value prints in decimal. *)
Definition join (sep : string) (numbers : list Z) : string :=
  String.concat sep (pretty <$> numbers).

(** [Math.max(...numbers)]; [None] is [-Infinity], the maximum of no
    number at all. *)
Definition Math_max (numbers : list Z) : option Z :=
  match numbers with
  | [] => None
  | n :: rest => Some (foldl Z.max n rest)
  end.

(** [numbers.indexOf(x)]; [None] is [-1]. *)
Definition indexOf (numbers : list Z) (x : option Z) : option nat :=
  x ≫= (λ x, fst <$> list_find (λ n, n = x) numbers).

End Js.
Import Js.

(** ** quiz-logic.js *)
Module QuizLogic.

Definition PERSONAS : list string :=
  [ "morning-minimalist"; "upgrader"; "craft-barista"; "traveller";
    "non-barista"; "office-manager" ].

(** [SCORING[question][option][persona]]. *)
Definition SCORING : list (list (list Z)) :=
  [ (* Q1 *)
    [ [2; 0; 0; 0; 1; 0];
      [1; 1; 0; 0; 0; 0];
      [0; 0; 1; 1; 0; 0];
      [0; 0; 0; 0; 2; 0] ];
    (* Q2 *)
    [ [1; 0; 0; 0; 2; 0];
      [2; 1; 0; 0; 0; 0];
      [0; 1; 2; 0; 0; 0];
      [0; 0; 0; 0; 2; 1] ];
    (* Q3 *)
    [ [1; 1; 0; 0; 0; 0];
      [1; 0; 0; 0; 1; 0];
      [0; 0; 0; 3; 0; 0];
      [0; 0; 0; 0; 0; 3] ];
    (* Q4 *)
    [ [1; 0; 0; 0; 1; 0];
      [0; 1; 0; 0; 2; 0];
      [0; 2; 1; 0; 0; 0];
      [0; 0; 3; 0; 0; 0] ] ].

(** [scores[personaIndex] += points].  Every row of [SCORING] has as many
    entries as [scores], so the index is always in range; out of range the
    source would store [NaN], which the integer scores cannot hold. *)
Definition add_points (points : Z) (personaIndex : nat) (scores : list Z) : list Z :=
  match scores !! personaIndex with
  | Some s => <[personaIndex := s + points]> scores
  | None => scores
  end.

(** The body of the outer [answers.forEach]. *)
Definition score_answer (answerIndex : Z) (questionIndex : nat) (scores : list Z)
  : result (list Z) :=
  if bool_decide (questionIndex < length SCORING)%nat && (0 <=? answerIndex) then
    match SCORING !! questionIndex with
    | Some questionScoring =>
        let last := Z.of_nat (length questionScoring) - 1 in
        match questionScoring !! Z.to_nat (Z.min answerIndex last) with
        | Some optionScoring => Returns (forEach add_points optionScoring scores)
        | None => Throws TypeError
        end
    | None => Throws TypeError
    end
  else Returns scores.

Definition tally (answers : list Z) : result (list Z) :=
  forEachE score_answer answers [0; 0; 0; 0; 0; 0].

(** The body of [scores.forEach]; the state is [(maxScore, winnerIndex)]. *)
Definition keep_highest (score : Z) (index : nat) (st : Z * nat) : Z * nat :=
  if fst st <? score then (score, index) else st.

Definition find_winner (scores : list Z) : nat :=
  snd (forEach keep_highest scores (0, 0%nat)).

Definition calculatePersona (answers : list Z) : result tagval :=
  scores ← tally answers;
  Returns (match PERSONAS !! find_winner scores with
           | Some tag => TagStr tag
           | None => TagUndefined
           end).

Definition slugMap : gmap string string :=
  list_to_map
    [ ("morning-minimalist", "morning-minimalist");
      ("upgrader", "the-upgrade-path");
      ("craft-barista", "craft-at-home");
      ("traveller", "espresso-anywhere");
      ("non-barista", "the-non-barista");
      ("office-manager", "the-non-barista") ].

(** [slugMap[personaTag] || 'morning-minimalist'] and the template
    literal around it. *)
Definition getResultPage (personaTag : tagval) : string :=
  let slug :=
    match get slugMap (tag_to_string personaTag) with
    | Own s => if String.eqb s EmptyString then "morning-minimalist" else s
    | Inherited b => builtin_to_string b
    | Missing => "morning-minimalist"
    end in
  "/experiences/core/" +:+ slug.

(** [new Date()] shifted by 90 days; [now] is the clock reading. *)
Definition setPersonaCookie (personaTag : tagval) (now : Z) (w : browser) : browser :=
  let date := now + 90 * 24 * 60 * 60 * 1000 in
  Browser
    (cookie_writes w ++
       [ CookieWrite "arco_persona" (encodeURIComponent (tag_to_string personaTag))
           date "/" "Lax" ])
    (location_href w).

(** The literal [arco_persona=] at the head of [s], then the capture
    group: every character up to the next semicolon. *)
Definition match_pair (s : list ascii) : option (list ascii) :=
  up_to_semicolon <$> strip_prefix (list_ascii_of_string "arco_persona=") s.

(** The alternative that starts with a semicolon and optional white
    space, tried at every position, leftmost first. *)
Fixpoint match_after_semicolon (s : list ascii) : option (list ascii) :=
  match s with
  | [] => None
  | c :: rest =>
      match (if Ascii.eqb c ";" then match_pair (skip_spaces rest) else None) with
      | Some group => Some group
      | None => match_after_semicolon rest
      end
  end.

(** [cookie.match(...)] with the pattern of [getPersonaFromCookie]: the
    pair [arco_persona=value] at the start of the text or after a
    semicolon and optional white space; at position 0 the start-of-text
    alternative is tried first. *)
Definition match_cookie (cookie : string) : option string :=
  let s := list_ascii_of_string cookie in
  string_of_list_ascii <$>
    match match_pair s with
    | Some group => Some group
    | None => match_after_semicolon s
    end.

(** [cookie] is the text [document.cookie] reads as. *)
Definition getPersonaFromCookie (cookie : string) : result tagval :=
  match match_cookie cookie with
  | Some group => map_result TagStr (decodeURIComponent group)
  | None => Returns TagNull
  end.

End QuizLogic.

(** ** assembly-engine.js *)
Module AssemblyEngine.

(** Hero content variants keyed by persona tag. *)
Definition HERO_VARIANTS : gmap string value :=
  list_to_map
    [
      ("default",
       object [
          ("headline", VStr "Precision Brewing, Beautiful Design");
          ("subtext", VStr "Arco crafts espresso machines and grinders for people who care about every detail — from bean to cup.");
          ("cta", object [
              ("label", VStr "Explore Machines");
              ("url", VStr "/products/espresso-machines") ]);
          ("image_alt", VStr "Arco espresso machine brewing a perfect shot on a sunlit kitchen counter") ]);
      ("morning-minimalist",
       object [
          ("headline", VStr "One perfect cup. Every morning.");
          ("subtext", VStr "The Arco Primo is built for people who want quality without complexity. Heat up in 90 seconds, pull a beautiful shot, and start your day.");
          ("cta", object [
              ("label", VStr "Meet the Primo");
              ("url", VStr "/products/pdp-canonical/arco-primo") ]);
          ("image_alt", VStr "A calm kitchen counter at dawn with a single espresso in a white ceramic cup next to the Arco Primo") ]);
      ("upgrader",
       object [
          ("headline", VStr "Ready for the real thing.");
          ("subtext", VStr "You've outgrown your first machine. The Arco Doppio gives you dual-boiler precision without the learning cliff.");
          ("cta", object [
              ("label", VStr "Compare Machines");
              ("url", VStr "/products/comparison/arco-primo-vs-arco-doppio") ]);
          ("image_alt", VStr "The Arco Doppio on a modern kitchen counter with a fresh double shot, steam wand in action") ]);
      ("craft-barista",
       object [
          ("headline", VStr "Built for the obsessed.");
          ("subtext", VStr "The Arco Studio Pro puts pressure profiling, PID temperature control, and competition-grade build quality on your counter.");
          ("cta", object [
              ("label", VStr "Explore Studio Pro");
              ("url", VStr "/products/pdp-canonical/arco-studio-pro") ]);
          ("image_alt", VStr "Close-up of the Arco Studio Pro pressure gauge and portafilter with a perfectly extracted shot flowing") ]);
      ("traveller",
       object [
          ("headline", VStr "Espresso, everywhere.");
          ("subtext", VStr "The Arco Viaggio weighs 340g and pulls genuine espresso from a mountain ledge, a hotel room, or a campervan.");
          ("cta", object [
              ("label", VStr "Meet the Viaggio");
              ("url", VStr "/products/pdp-canonical/arco-viaggio") ]);
          ("image_alt", VStr "The Arco Viaggio portable espresso maker on a granite rock with mountain peaks in soft focus behind") ]);
      ("non-barista",
       object [
          ("headline", VStr "Great coffee. No barista required.");
          ("subtext", VStr "The Arco Automatico grinds, tamps, and brews with one touch. Specialty-grade espresso without the learning curve.");
          ("cta", object [
              ("label", VStr "See the Automatico");
              ("url", VStr "/products/pdp-canonical/arco-automatico") ]);
          ("image_alt", VStr "The Arco Automatico with a freshly brewed espresso, simple one-button interface visible") ]);
      ("office-manager",
       object [
          ("headline", VStr "Office coffee that people actually look forward to.");
          ("subtext", VStr "The Arco Ufficio is built for teams — high-volume, easy to maintain, and pays for itself in under six months.");
          ("cta", object [
              ("label", VStr "Calculate Savings");
              ("url", VStr "/tools/calculators/capsule-to-bean-cost-comparison") ]);
          ("image_alt", VStr "The Arco Ufficio in a bright modern office kitchen with multiple cups ready to serve") ]) ].

(** Product recommendations keyed by persona tag. *)
Definition PRODUCT_RECS : gmap string (list string) :=
  list_to_map
    [
      ("default",
        [ "arco-primo";
          "arco-doppio";
          "arco-studio";
          "arco-macinino";
          "arco-preciso";
          "arco-zero" ]);
      ("morning-minimalist",
        [ "arco-nano";
          "arco-primo";
          "arco-macinino";
          "arco-filtro";
          "arco-doppio";
          "arco-preciso" ]);
      ("upgrader",
        [ "arco-doppio";
          "arco-studio";
          "arco-preciso";
          "arco-primo";
          "arco-macinino";
          "arco-zero" ]);
      ("craft-barista",
        [ "arco-studio-pro";
          "arco-zero";
          "arco-studio";
          "arco-preciso";
          "arco-filtro";
          "arco-doppio" ]);
      ("traveller",
        [ "arco-viaggio";
          "arco-nano";
          "arco-macinino";
          "arco-primo";
          "arco-filtro";
          "arco-doppio" ]);
      ("non-barista",
        [ "arco-automatico";
          "arco-nano";
          "arco-primo";
          "arco-macinino";
          "arco-doppio";
          "arco-preciso" ]);
      ("office-manager",
        [ "arco-ufficio";
          "arco-doppio";
          "arco-preciso";
          "arco-studio";
          "arco-automatico";
          "arco-macinino" ]) ].

(** Blog feed priorities keyed by persona tag. *)
Definition BLOG_FEEDS : gmap string (list string) :=
  list_to_map
    [
      ("default",
        [ "why-your-grinder-matters-more-than-your-machine";
          "a-visit-to-our-workshop";
          "the-architect-who-built-a-coffee-corner" ]);
      ("morning-minimalist",
        [ "10-most-common-beginner-mistakes";
          "how-to-dial-in-espresso-in-under-10-minutes";
          "how-to-store-beans-properly" ]);
      ("upgrader",
        [ "why-your-grinder-matters-more-than-your-machine";
          "pre-infusion-what-it-is-and-why-arco-uses-it";
          "how-to-clean-a-group-head" ]);
      ("craft-barista",
        [ "why-arco-chose-brass-for-the-studio-boiler";
          "blind-tasting-your-espresso";
          "calibrating-a-burr-grinder" ]);
      ("traveller",
        [ "the-van-lifer-and-the-viaggio";
          "espresso-bars-worth-visiting-in-milan";
          "altitude-and-espresso" ]);
      ("non-barista",
        [ "10-most-common-beginner-mistakes";
          "descaling-step-by-step";
          "how-to-store-beans-properly" ]);
      ("office-manager",
        [ "the-startup-office-upgrade";
          "descaling-step-by-step";
          "coffee-certifications-explained" ]) ].

(** Experience CTA data keyed by persona tag. *)
Definition EXPERIENCE_CTAS : gmap string value :=
  list_to_map
    [
      ("default",
       object [
          ("archetype", VStr "Discover Your Style");
          ("headline", VStr "Not sure where to start?");
          ("body", VStr "Take our 30-second quiz and we'll match you with the right setup.");
          ("cta", object [
              ("label", VStr "Find Your Brew Style");
              ("url", VStr "/experiences/core/morning-minimalist") ]);
          ("image_alt", VStr "A warm kitchen scene with multiple Arco machines arranged from simple to advanced") ]);
      ("morning-minimalist",
       object [
          ("archetype", VStr "The Morning Minimalist");
          ("headline", VStr "Your morning, simplified.");
          ("body", VStr "Everything you need for a calm, quality-first start to the day.");
          ("cta", object [
              ("label", VStr "See Your Setup");
              ("url", VStr "/experiences/core/morning-minimalist") ]);
          ("image_alt", VStr "A calm sunrise kitchen with a single espresso and the Arco Primo") ]);
      ("upgrader",
       object [
          ("archetype", VStr "The Upgrade Path");
          ("headline", VStr "Ready for the next level?");
          ("body", VStr "See what a real upgrade looks like and what it means for your daily cup.");
          ("cta", object [
              ("label", VStr "Explore Upgrades");
              ("url", VStr "/experiences/core/the-upgrade-path") ]);
          ("image_alt", VStr "Side by side comparison of entry-level and mid-range Arco equipment") ]);
      ("craft-barista",
       object [
          ("archetype", VStr "Craft at Home");
          ("headline", VStr "The home setup you deserve.");
          ("body", VStr "Professional-grade equipment, pro-level technique guides, zero compromises.");
          ("cta", object [
              ("label", VStr "Build Your Station");
              ("url", VStr "/experiences/core/craft-at-home") ]);
          ("image_alt", VStr "A dedicated coffee corner with the Arco Studio Pro, Zero grinder, and full accessories") ]);
      ("traveller",
       object [
          ("archetype", VStr "Espresso Anywhere");
          ("headline", VStr "Your coffee, wherever you go.");
          ("body", VStr "Compact gear, travel guides, and the freedom to brew anywhere on earth.");
          ("cta", object [
              ("label", VStr "Pack Your Kit");
              ("url", VStr "/experiences/core/espresso-anywhere") ]);
          ("image_alt", VStr "The Arco Viaggio on a wooden table overlooking a mountain landscape") ]);
      ("non-barista",
       object [
          ("archetype", VStr "The Non-Barista");
          ("headline", VStr "No skills required.");
          ("body", VStr "Specialty-grade coffee with one button press. Welcome to the easy life.");
          ("cta", object [
              ("label", VStr "See How Easy It Is");
              ("url", VStr "/experiences/core/the-non-barista") ]);
          ("image_alt", VStr "A person pressing a single button on the Arco Automatico with a perfect espresso appearing") ]);
      ("office-manager",
       object [
          ("archetype", VStr "Office Solutions");
          ("headline", VStr "Coffee that runs itself.");
          ("body", VStr "High-volume, low-maintenance equipment that your entire team will thank you for.");
          ("cta", object [
              ("label", VStr "Office Setup Guide");
              ("url", VStr "/bundles/persona-kits/upgrader-kit") ]);
          ("image_alt", VStr "The Arco Ufficio in a bright office kitchen with happy colleagues") ]) ].

(** [HERO_VARIANTS[personaTag] || HERO_VARIANTS.default]. *)
Definition getHeroVariant (personaTag : tagval) : value :=
  or_else (member_value (get HERO_VARIANTS (tag_to_string personaTag)))
          (member_value (get HERO_VARIANTS "default")).

(** [TABLE[personaTag] || TABLE.default] for a table of arrays: an array
    and an inherited built-in are truthy, only [undefined] gives way to
    the default entry. *)
Definition list_or_default (table : gmap string (list string)) (personaTag : tagval)
  : member (list string) :=
  match get table (tag_to_string personaTag) with
  | Missing => get table "default"
  | found => found
  end.

(** [recs.slice(0, limit)]: only an array has a [slice] method. *)
Definition slice_member (recs : member (list string)) (limit : Z) : result (list string) :=
  match recs with
  | Own arr => Returns (slice0 arr limit)
  | Inherited _ | Missing => Throws TypeError
  end.

(** [limit = 3] when the argument is left out. *)
Definition getProductRecommendations (personaTag : tagval) (limit : option Z)
  : result (list string) :=
  let limit := default 3 limit in
  let recs := list_or_default PRODUCT_RECS personaTag in
  slice_member recs limit.

Definition getBlogFeed (personaTag : tagval) (limit : option Z) : result (list string) :=
  let limit := default 3 limit in
  let feed := list_or_default BLOG_FEEDS personaTag in
  slice_member feed limit.

Definition getExperienceCTA (personaTag : tagval) : value :=
  or_else (member_value (get EXPERIENCE_CTAS (tag_to_string personaTag)))
          (member_value (get EXPERIENCE_CTAS "default")).

(** The table local to [getNavigationOverride]. *)
Definition overrides : gmap string value :=
  list_to_map
    [
      ("morning-minimalist",
       object [
          ("promote", VArr [VStr "/products/espresso-machines"; VStr "/guides/fundamentals/your-first-week-with-a-machine"]);
          ("demote", VArr [VStr "/guides/advanced/flow-control-profiling"]);
          ("cta", object [
              ("label", VStr "Your Morning Setup");
              ("url", VStr "/experiences/core/morning-minimalist") ]) ]);
      ("upgrader",
       object [
          ("promote", VArr [VStr "/products/comparison/arco-primo-vs-arco-doppio"; VStr "/guides/intermediate/dialing-in-new-beans"]);
          ("demote", VArr [VStr "/guides/fundamentals/tamping-technique"]);
          ("cta", object [
              ("label", VStr "Find Your Upgrade");
              ("url", VStr "/experiences/core/the-upgrade-path") ]) ]);
      ("craft-barista",
       object [
          ("promote", VArr [VStr "/guides/advanced/flow-control-profiling"; VStr "/products/espresso-machines"]);
          ("demote", VArr [VStr "/guides/fundamentals/what-is-extraction"]);
          ("cta", object [
              ("label", VStr "Pro Setup");
              ("url", VStr "/experiences/core/craft-at-home") ]) ]);
      ("traveller",
       object [
          ("promote", VArr [VStr "/blog/travel/espresso-bars-worth-visiting-in-milan"; VStr "/products/espresso-machines"]);
          ("demote", VArr [VStr "/guides/advanced/flow-control-profiling"]);
          ("cta", object [
              ("label", VStr "Travel Gear");
              ("url", VStr "/experiences/core/espresso-anywhere") ]) ]);
      ("non-barista",
       object [
          ("promote", VArr [VStr "/products/espresso-machines"; VStr "/guides/fundamentals/your-first-week-with-a-machine"]);
          ("demote", VArr [VStr "/guides/advanced/tds-and-extraction-yield"]);
          ("cta", object [
              ("label", VStr "Easy Setup");
              ("url", VStr "/experiences/core/the-non-barista") ]) ]);
      ("office-manager",
       object [
          ("promote", VArr [VStr "/tools/calculators/capsule-to-bean-cost-comparison"; VStr "/products/espresso-machines"]);
          ("demote", VArr [VStr "/guides/advanced/flow-control-profiling"]);
          ("cta", object [
              ("label", VStr "Office Solutions");
              ("url", VStr "/bundles/persona-kits/upgrader-kit") ]) ]) ].

Definition getNavigationOverride (personaTag : tagval) : value :=
  or_else (member_value (get overrides (tag_to_string personaTag)))
          (object [ ("promote", VArr []); ("demote", VArr []); ("cta", VNull) ]).

Definition strings_value (l : list string) : value :=
  VArr (VStr <$> l).

(** The five assignments of the [homepage] branch. *)
Definition assemble_homepage (persona : tagval) (assembled : gmap string value)
  : result (gmap string value) :=
  let assembled := <["hero" := getHeroVariant persona]> assembled in
  products ← getProductRecommendations persona (Some 3);
  let assembled := <["products" := strings_value products]> assembled in
  blog_feed ← getBlogFeed persona (Some 3);
  let assembled := <["blog_feed" := strings_value blog_feed]> assembled in
  let assembled := <["experience_cta" := getExperienceCTA persona]> assembled in
  let assembled := <["nav_override" := getNavigationOverride persona]> assembled in
  Returns assembled.

(** [baseContent.persona_overrides?.[persona]], as far as it is an own
    property.  A member found on a built-in prototype instead is a
    function or a prototype object, with no own enumerable property for
    [Object.assign] to copy, and is left out like [undefined].  The key
    [persona_overrides] itself is no member of [Object.prototype]. *)
Definition persona_override (baseContent : gmap string value) (persona : string)
  : option value :=
  match baseContent !! "persona_overrides" with
  | None | Some VUndefined | Some VNull => None
  | Some persona_overrides => own_property persona_overrides persona
  end.

(** The [pdp] branch. *)
Definition assemble_pdp (persona : tagval) (baseContent assembled : gmap string value)
  : gmap string value :=
  if tag_truthy persona then
    match persona_override baseContent (tag_to_string persona) with
    | Some override =>
        if truthy override then Object_assign assembled (own_enumerable override)
        else assembled
    | None => assembled
    end
  else assembled.

(** [cookie] is what [document.cookie] reads as and [isoNow] the text
    [new Date().toISOString()] evaluates to during the call. *)
Definition composePage (pageType : string) (personaTag : tagval)
    (baseContent : gmap string value) (cookie isoNow : string)
  : result (gmap string value) :=
  persona ← (if tag_truthy personaTag then Returns personaTag
             else QuizLogic.getPersonaFromCookie cookie);
  let assembled := baseContent in
  assembled ← (if decide (pageType = "homepage")
               then assemble_homepage persona assembled
               else Returns assembled);
  let assembled := if decide (pageType = "pdp")
                   then assemble_pdp persona baseContent assembled
                   else assembled in
  let assembled := <["_persona" := tag_value persona]> assembled in
  let assembled := <["_assembled_at" := VStr isoNow]> assembled in
  Returns assembled.

End AssemblyEngine.

(** ** The brew-style quiz block (the older quiz) *)
Module BrewStyleQuiz.

Definition EXPERIENCE_TAGS : list string :=
  [ "morning-minimalist"; "the-upgrade-path"; "craft-at-home";
    "espresso-anywhere"; "the-non-barista" ].

(** The table local to [resolveExperience]. *)
Definition mapping : gmap string string :=
  list_to_map
    [
      ("0-0-0", "morning-minimalist"); ("0-0-1", "morning-minimalist");
      ("0-1-0", "morning-minimalist"); ("1-1-1", "craft-at-home");
      ("1-1-0", "craft-at-home"); ("1-0-1", "the-upgrade-path");
      ("1-0-0", "the-upgrade-path"); ("0-1-1", "the-upgrade-path");
      ("2-2-2", "espresso-anywhere"); ("2-0-2", "espresso-anywhere");
      ("2-2-0", "espresso-anywhere"); ("2-0-0", "the-upgrade-path");
      ("2-1-2", "espresso-anywhere"); ("2-2-1", "espresso-anywhere");
      ("2-1-0", "craft-at-home"); ("2-1-1", "craft-at-home");
      ("2-0-1", "espresso-anywhere"); ("3-3-3", "the-non-barista");
      ("3-3-0", "the-non-barista"); ("3-3-1", "the-non-barista");
      ("3-3-2", "the-non-barista"); ("3-0-3", "the-non-barista");
      ("3-1-3", "the-non-barista"); ("3-2-3", "the-non-barista");
      ("0-3-3", "the-non-barista"); ("1-3-3", "the-non-barista");
      ("0-0-3", "morning-minimalist"); ("0-0-2", "morning-minimalist");
      ("1-1-2", "craft-at-home"); ("1-1-3", "craft-at-home");
      ("0-2-0", "espresso-anywhere"); ("0-2-1", "espresso-anywhere");
      ("0-2-2", "espresso-anywhere"); ("0-2-3", "espresso-anywhere");
      ("1-2-0", "craft-at-home"); ("1-2-1", "craft-at-home");
      ("1-2-2", "espresso-anywhere"); ("1-2-3", "espresso-anywhere");
      ("0-3-0", "morning-minimalist"); ("0-3-1", "the-upgrade-path");
      ("0-3-2", "espresso-anywhere"); ("1-3-0", "the-upgrade-path");
      ("1-3-1", "craft-at-home"); ("1-3-2", "espresso-anywhere");
      ("1-0-2", "the-upgrade-path"); ("1-0-3", "the-upgrade-path");
      ("3-0-0", "the-non-barista"); ("3-0-1", "the-non-barista");
      ("3-0-2", "the-non-barista"); ("3-1-0", "the-non-barista");
      ("3-1-1", "the-non-barista"); ("3-1-2", "the-non-barista");
      ("3-2-0", "the-non-barista"); ("3-2-1", "the-non-barista");
      ("3-2-2", "the-non-barista"); ("2-3-0", "espresso-anywhere");
      ("2-3-1", "espresso-anywhere"); ("2-3-2", "espresso-anywhere");
      ("2-3-3", "the-non-barista"); ("0-1-2", "the-upgrade-path");
      ("0-1-3", "the-upgrade-path") ].

(** The body of [answers.forEach] in the fallback:
    [if (a >= 0 && a < counts.length) counts[a] += 1]. *)
Definition count_answer (a : Z) (_ : nat) (counts : list Z) : list Z :=
  if (0 <=? a) && (a <? Z.of_nat (length counts))
  then alter (Z.add 1) (Z.to_nat a) counts
  else counts.

(** The fallback: the tag at the most frequent answer index. *)
Definition dominant_tag (answers : list Z) : strval :=
  let counts := forEach count_answer answers [0; 0; 0; 0] in
  let dominant := indexOf counts (Math_max counts) in
  match dominant ≫= (EXPERIENCE_TAGS !!.) with
  | Some tag => if String.eqb tag EmptyString
                then from_option StrText StrUndefined (EXPERIENCE_TAGS !! 0%nat)
                else StrText tag
  | None => from_option StrText StrUndefined (EXPERIENCE_TAGS !! 0%nat)
  end.

Definition resolveExperience (answers : list Z) : strval :=
  let key := join "-" answers in
  match get mapping key with
  | Own tag => if String.eqb tag EmptyString then dominant_tag answers else StrText tag
  | Inherited b => StrBuiltin b
  | Missing => dominant_tag answers
  end.

(** [now] is the clock reading of [new Date()]. *)
Definition setCookie (name : string) (value : strval) (days : Z) (now : Z) (w : browser)
  : browser :=
  let date := now + days * 24 * 60 * 60 * 1000 in
  Browser
    (cookie_writes w ++
       [ CookieWrite name (encodeURIComponent (strval_to_string value)) date "/" "Lax" ])
    (location_href w).

(** The quiz-complete branch of the answer callback. *)
Definition completeQuiz (answers : list Z) (now : Z) (w : browser) : browser :=
  let result := resolveExperience answers in
  let w := setCookie "arco-brew-style" result 30 now w in
  Browser (cookie_writes w) (Some ("/experiences/" +:+ strval_to_string result)).

(** [showQuestion(index)] with the clicks still to come, one per
    question shown: each answer is pushed, then the next question is
    shown or the quiz completes.  With no click left the quiz waits. *)
Fixpoint showQuestion (total : nat) (clicks : list Z) (index : nat) (answers : list Z)
    (now : Z) (w : browser) : list Z * browser :=
  match clicks with
  | [] => (answers, w)
  | optIdx :: clicks' =>
      let answers := (answers ++ [optIdx])%list in
      if bool_decide (index + 1 < total)%nat
      then showQuestion total clicks' (index + 1) answers now w
      else (answers, completeQuiz answers now w)
  end.

(** [decorate] for a block with [total] questions:
    [if (questions.length === 0) return], else [showQuestion(0)]. *)
Definition decorate (total : nat) (clicks : list Z) (now : Z) (w : browser)
  : list Z * browser :=
  if decide (total = 0%nat) then ([], w) else showQuestion total clicks 0 [] now w.

End BrewStyleQuiz.

(** ** The persona quiz block *)
Module QuizBlock.

Definition PERSONAS : list string := QuizLogic.PERSONAS.

Definition SCORING : list (list (list Z)) := QuizLogic.SCORING.

Definition RESULT_PAGES : gmap string string :=
  list_to_map
    [ ("morning-minimalist", "/experiences/core/morning-minimalist");
      ("upgrader", "/experiences/core/the-upgrade-path");
      ("craft-barista", "/experiences/core/craft-at-home");
      ("traveller", "/experiences/core/espresso-anywhere");
      ("non-barista", "/experiences/core/the-non-barista");
      ("office-manager", "/experiences/core/the-non-barista") ].

(** The block carries its own copies of [PERSONAS], [SCORING] and
    [calculatePersona], the same text as in [quiz-logic.js]. *)
Definition calculatePersona (answers : list Z) : result tagval :=
  QuizLogic.calculatePersona answers.

(** [now] is the clock reading of [new Date()]. *)
Definition setCookie (name : string) (value : tagval) (days : Z) (now : Z) (w : browser)
  : browser :=
  let date := now + days * 24 * 60 * 60 * 1000 in
  Browser
    (cookie_writes w ++
       [ CookieWrite name (encodeURIComponent (tag_to_string value)) date "/" "Lax" ])
    (location_href w).

(** The quiz-complete branch of the answer callback; [now1] and [now2]
    are the clock readings of the two [setCookie] calls. *)
Definition completeQuiz (answers : list Z) (now1 now2 : Z) (w : browser) : result browser :=
  persona ← calculatePersona answers;
  let w := setCookie "arco_persona" persona 90 now1 w in
  let w := setCookie "arco-brew-style" persona 30 now2 w in
  let resultUrl :=
    match get RESULT_PAGES (tag_to_string persona) with
    | Own url => if String.eqb url EmptyString
                 then "/experiences/core/morning-minimalist" else url
    | Inherited b => builtin_to_string b
    | Missing => "/experiences/core/morning-minimalist"
    end in
  Returns (Browser (cookie_writes w) (Some resultUrl)).

(** What the answer callback asks for next. *)
Inductive progress :=
| ShowQuestion (index : nat)
| Completed.

(** The callback [renderQuestion] receives for question [index] out of
    [total]: [answers.push(optIdx)], then the next question or the
    completion. *)
Definition onAnswer (total index : nat) (optIdx : Z) (answers : list Z)
    (now1 now2 : Z) (w : browser) : result (list Z * progress * browser) :=
  let answers := (answers ++ [optIdx])%list in
  if bool_decide (index + 1 < total)%nat
  then Returns (answers, ShowQuestion (index + 1), w)
  else w ← completeQuiz answers now1 now2 w;
       Returns (answers, Completed, w).

(** [showQuestion(index)] with the clicks still to come, one per
    question shown.  With no click left the quiz waits at [index]. *)
Fixpoint showQuestion (total : nat) (clicks : list Z) (index : nat) (answers : list Z)
    (now1 now2 : Z) (w : browser) : result (list Z * progress * browser) :=
  match clicks with
  | [] => Returns (answers, ShowQuestion index, w)
  | optIdx :: clicks' =>
      step ← onAnswer total index optIdx answers now1 now2 w;
      match step with
      | (answers, ShowQuestion next, w) =>
          showQuestion total clicks' next answers now1 now2 w
      | (answers, Completed, w) => Returns (answers, Completed, w)
      end
  end.

(** [decorate] for a block with [total] questions:
    [if (questions.length === 0) return], else [showQuestion(0)]; [None]
    is the early return. *)
Definition decorate (total : nat) (clicks : list Z) (now1 now2 : Z) (w : browser)
  : result (option (list Z * progress * browser)) :=
  if decide (total = 0%nat) then Returns None
  else map_result Some (showQuestion total clicks 0 [] now1 now2 w).

End QuizBlock.

(** * Vocabulary of the statements

    Where the specification and the sources name things differently, the
    statements use the names of the sources: [classify] is
    [calculatePersona], [compose] is [composePage], the page type
    [product-detail] is ["pdp"] and its override map [persona_overrides],
    the article feed is [blog_feed], the promotional CTA [experience_cta],
    the navigation override [nav_override] and the timestamp
    [_assembled_at]. *)

Import QuizLogic AssemblyEngine.

(** ** The classifier *)

(** The row of the scoring table an answer selects, if it counts at all. *)
Definition chosen_row (questionIndex : nat) (answerIndex : Z) : option (list Z) :=
  if bool_decide (questionIndex < 4)%nat && (0 <=? answerIndex)
  then SCORING !! questionIndex ≫= (λ options, options !! Z.to_nat (Z.min answerIndex 3))
  else None.

(** The invariant of the score vector: six totals, none negative. *)
Definition nonneg (scores : list Z) : Prop := Forall (λ s, 0 ≤ s) scores.

Definition well_formed (scores : list Z) : Prop :=
  length scores = 6%nat ∧ nonneg scores.

(** The winner selection, as the specification words it: scan the scores
    in order with a running maximum and a running winner, and replace the
    winner only on a strictly greater score. *)
Fixpoint scan_from (scores : list Z) (index : nat) (currentMax : Z) (winner : nat) : nat :=
  match scores with
  | [] => winner
  | score :: rest =>
      if score >? currentMax then scan_from rest (S index) score index
      else scan_from rest (S index) currentMax winner
  end.

Definition scan_winner (scores : list Z) : nat := scan_from scores 0 0 0.

(** The winner holds a maximal score, and every persona before it holds a
    strictly smaller one. *)
Definition first_maximum (scores : list Z) (winner : nat) : Prop :=
  ∃ top, scores !! winner = Some top
         ∧ (∀ i s, scores !! i = Some s → s ≤ top)
         ∧ (∀ j s, (j < winner)%nat → scores !! j = Some s → s < top).

(** A total that is strictly above every other persona's total. *)
Definition strictly_highest (scores : list Z) (winner : nat) : Prop :=
  ∃ top, scores !! winner = Some top
         ∧ ∀ i s, i ≠ winner → scores !! i = Some s → s < top.

(** ** The variant registry *)

(** The list a table holds for a tag: its own entry, else the default. *)
Definition persona_list (table : gmap string (list string)) (personaTag : tagval)
  : list string :=
  match table !! tag_to_string personaTag with
  | Some entry => entry
  | None => default [] (table !! "default")
  end.

(** What a call with an explicit limit returns, for a list of the table. *)
Definition first_elements (entry : list string) (limit : Z) (r : result (list string))
  : Prop :=
  let len := Z.of_nat (length entry) in
  ∃ out, r = Returns out
    ∧ (0 ≤ limit → out = take (Z.to_nat (Z.min limit len)) entry)
    ∧ (len ≤ limit → out = entry)
    ∧ (limit = 0 → out = [])
    ∧ (limit < 0 → out = take (Z.to_nat (len + limit)) entry)
    ∧ (limit ≤ - len → out = []).

(** ** The redirect target *)

(** The five experience pages. *)
Definition experience_urls : list string :=
  [ "/experiences/core/morning-minimalist";
    "/experiences/core/the-upgrade-path";
    "/experiences/core/craft-at-home";
    "/experiences/core/espresso-anywhere";
    "/experiences/core/the-non-barista" ].

(** Case analysis on membership in a literal list. *)
Ltac list_cases H :=
  repeat (apply elem_of_cons in H as [H|H]); [.. | by apply elem_of_nil in H].

(** Membership in a literal list, decided by evaluation. *)
Ltac by_evaluation := apply (bool_decide_unpack _); vm_compute; exact I.

(** ** Page composition *)

(** The persona a call works with: the explicit tag when truthy, else
    what the cookie holds. *)
Definition effective_persona (personaTag : tagval) (cookie : string) : result tagval :=
  if tag_truthy personaTag then Returns personaTag else getPersonaFromCookie cookie.

(** The keys the homepage branch assigns, and the two stamped ones. *)
Definition variant_fields : list string :=
  [ "hero"; "products"; "blog_feed"; "experience_cta"; "nav_override" ].

Definition stamped_fields : list string := [ "_persona"; "_assembled_at" ].

(** The keys an override cannot set freely: the stamped ones and the
    accessor name. *)
Definition reserved_fields : list string := "__proto__" :: stamped_fields.

(** ** Persisting the persona *)

(** A retention period in milliseconds. *)
Definition days (n : Z) : Z := n * 24 * 60 * 60 * 1000.

(** The values the brew-style quiz stores under [arco-brew-style]. *)
Definition legacy_slugs : list string := BrewStyleQuiz.EXPERIENCE_TAGS.

(** The two stamped fields as an object of their own. *)
Definition stamp (persona : tagval) (isoNow : string) : gmap string value :=
  <["_assembled_at" := VStr isoNow]> (<["_persona" := tag_value persona]> ∅).

(** Assembling once more what a first call returned. *)
Definition reassemble (pageType : string) (personaTag : tagval) (base : gmap string value)
    (cookie now1 now2 : string) : result (gmap string value) :=
  bind (composePage pageType personaTag base cookie now1)
       (λ assembled, composePage pageType personaTag assembled cookie now2).

(** ** Cookie text *)

(** Strings made of ASCII characters only. *)
Definition ascii_only (s : string) : Prop :=
  Forall (λ c, (N_of_ascii c < 128)%N) (list_ascii_of_string s).

(** What may follow a pair in the cookie text: nothing, or the
    semicolon that starts the next pair. *)
Definition ends_pair (suffix : string) : Prop :=
  suffix = EmptyString ∨ ∃ rest, suffix = String ";" rest.

(** The alphabet of an encoded URI component. *)
Definition percent_or_unreserved (c : ascii) : Prop :=
  unreserved c = true ∨ c = "%"%char.

(** The characters [encodeURIComponent] emits for one character. *)
Definition encode_char (c : ascii) : list ascii :=
  if unreserved c then [c] else percent_encode c.

(** ** Printed numbers *)

Definition is_digit (c : ascii) : bool :=
  ((48 <=? N_of_ascii c) && (N_of_ascii c <=? 57))%N.

(** Strings of decimal digits. *)
Definition digits (s : string) : Prop :=
  Forall (λ c, is_digit c = true) (list_ascii_of_string s).

(** * Evaluations

    The model run on inputs whose outcome the sources and the
    specification fix. *)

Example classify_0000_scores : tally [0; 0; 0; 0] = Returns [5; 1; 0; 0; 4; 0].
Proof. reflexivity. Qed.

Example classify_0000 :
  calculatePersona [0; 0; 0; 0] = Returns (TagStr "morning-minimalist").
Proof. reflexivity. Qed.

Example classify_out_of_range :
  calculatePersona [99; 99; 99; 99] = calculatePersona [3; 3; 3; 3].
Proof. reflexivity. Qed.

Example encodeURIComponent_reserved : encodeURIComponent "a b/c-d" = "a%20b%2Fc-d".
Proof. reflexivity. Qed.

Example decodeURIComponent_escapes : decodeURIComponent "a%20b%2fc" = Returns "a b/c".
Proof. reflexivity. Qed.

Example decodeURIComponent_truncated : decodeURIComponent "%E0%A4%A" = Throws URIError.
Proof. reflexivity. Qed.

Example decodeURIComponent_overlong : decodeURIComponent "%C0%80" = Throws URIError.
Proof. reflexivity. Qed.

Example decodeURIComponent_surrogate : decodeURIComponent "%ED%A0%80" = Throws URIError.
Proof. reflexivity. Qed.

Example decodeURIComponent_two_bytes :
  decodeURIComponent "%C3%A9" = Returns (String (ascii_of_N 195) (String (ascii_of_N 169) EmptyString)).
Proof. reflexivity. Qed.

Example cookie_among_others :
  getPersonaFromCookie "foo=bar; arco_persona=upgrader; x=1" = Returns (TagStr "upgrader").
Proof. reflexivity. Qed.

Example cookie_other_name :
  getPersonaFromCookie "foo=bar; xarco_persona=upgrader" = Returns TagNull.
Proof. reflexivity. Qed.

Example cookie_empty_value :
  getPersonaFromCookie "arco_persona=; x=1" = Returns (TagStr EmptyString).
Proof. reflexivity. Qed.

Example cookie_malformed_escape :
  getPersonaFromCookie "arco_persona=%" = Throws URIError.
Proof. reflexivity. Qed.

Example cookie_written_then_read :
  cookie_writes (setPersonaCookie (TagStr "craft-barista") 0 (Browser [] None))
  = [ CookieWrite "arco_persona" "craft-barista" 7776000000 "/" "Lax" ]
  ∧ getPersonaFromCookie "arco_persona=craft-barista" = Returns (TagStr "craft-barista").
Proof. split; reflexivity. Qed.

Example hero_unknown_tag :
  getHeroVariant (TagStr "unknown-tag") = getHeroVariant TagNull
  ∧ Some (getHeroVariant TagNull) = HERO_VARIANTS !! "default".
Proof. split; reflexivity. Qed.

Example pdp_nested_field_replaced :
  let base : gmap string value :=
    list_to_map
      [ ("persona_overrides",
         object [ ("upgrader", object [ ("size", object [ ("width", VNum 5) ]) ]) ]);
        ("size", object [ ("width", VNum 1); ("height", VNum 2) ]) ] in
  map_result (λ assembled : gmap string value, assembled !! "size")
    (composePage "pdp" (TagStr "upgrader") base EmptyString "2026-01-01T00:00:00.000Z")
  = Returns (Some (object [ ("width", VNum 5) ])).
Proof. vm_compute. reflexivity. Qed.

Example array_indices :
  own_property (VArr [VNum 7; VNum 8; VNum 9]) "2" = Some (VNum 9).
Proof. reflexivity. Qed.

(** * Properties *)

(** ** Loops *)
Section Loops.
Context {A St : Type}.

Lemma forEach_from_invariant (P : St → Prop) (f : A → nat → St → St) l i s :
  (∀ x j s', x ∈ l → P s' → P (f x j s')) → P s → P (forEach_from f l i s).
Proof.
  revert i s. induction l as [|x l IH]; intros i s Hf Hs; simpl; [done|].
  apply IH.
  - intros y j s' Hy. apply Hf. by right.
  - apply Hf; [by left | done].
Qed.

Lemma forEachE_from_app (f : A → nat → St → result St) l1 l2 i s :
  forEachE_from f (l1 ++ l2) i s
  = bind (forEachE_from f l1 i s) (forEachE_from f l2 (i + length l1)).
Proof.
  revert i s. induction l1 as [|x l1 IH]; intros i s; simpl.
  - by rewrite Nat.add_0_r.
  - destruct (f x i s) as [s'|e]; simpl; [|done].
    rewrite IH. by replace (S i + length l1)%nat with (i + S (length l1))%nat by lia.
Qed.

Lemma forEachE_from_ext (f g : A → nat → St → result St) l i s :
  (∀ x j s', f x j s' = g x j s') → forEachE_from f l i s = forEachE_from g l i s.
Proof.
  intros Hfg. revert i s. induction l as [|x l IH]; intros i s; simpl; [done|].
  rewrite Hfg. destruct (g x i s); simpl; [apply IH | done].
Qed.
End Loops.

(** ** The classifier *)

Lemma SCORING_rows q a row :
  chosen_row q a = Some row → length row = 6%nat ∧ nonneg row.
Proof.
  unfold chosen_row. destruct (bool_decide (q < 4)%nat) eqn:Hq; simpl; [|done].
  destruct (0 <=? a) eqn:Ha; [|done].
  apply bool_decide_eq_true in Hq. apply Z.leb_le in Ha.
  assert (Hi : (Z.to_nat (Z.min a 3) < 4)%nat) by lia.
  destruct (Z.to_nat (Z.min a 3)) as [|[|[|[|i]]]]; [| | | |lia];
    (destruct q as [|[|[|[|q]]]]; [| | | |lia]);
    intros [= <-]; (split; [reflexivity | unfold nonneg; repeat constructor; lia]).
Qed.

Lemma chosen_row_is_Some q a :
  (q < 4)%nat → 0 ≤ a → is_Some (chosen_row q a).
Proof.
  intros Hq Ha. unfold chosen_row.
  rewrite bool_decide_eq_true_2 by done.
  replace (0 <=? a) with true by (symmetry; by apply Z.leb_le). simpl.
  assert (Hi : (Z.to_nat (Z.min a 3) < 4)%nat) by lia.
  destruct (Z.to_nat (Z.min a 3)) as [|[|[|[|i]]]]; [| | | |lia];
    (destruct q as [|[|[|[|q]]]]; [| | | |lia]); by eexists.
Qed.

(** The loop body never throws: it adds the chosen row, or does nothing. *)
Lemma score_answer_eq a q scores :
  score_answer a q scores
  = Returns (from_option (λ row, forEach add_points row scores) scores (chosen_row q a)).
Proof.
  unfold score_answer, chosen_row. change (length SCORING) with 4%nat.
  destruct (bool_decide (q < 4)%nat) eqn:Hq; simpl; [|done].
  destruct (0 <=? a) eqn:Ha; [|done].
  apply bool_decide_eq_true in Hq. apply Z.leb_le in Ha.
  destruct q as [|[|[|[|q]]]]; [| | | |lia]; simpl;
    (assert (Hi : (Z.to_nat (Z.min a 3) < 4)%nat) by lia;
     change (Z.of_nat 4 - 1) with 3;
     destruct (Z.to_nat (Z.min a 3)) as [|[|[|[|i]]]]; [| | | |lia]; reflexivity).
Qed.

Lemma add_points_length p i scores : length (add_points p i scores) = length scores.
Proof. unfold add_points. destruct (scores !! i); [apply length_insert | done]. Qed.

Lemma add_points_nonneg p i scores : 0 ≤ p → nonneg scores → nonneg (add_points p i scores).
Proof.
  unfold add_points, nonneg. intros Hp Hs.
  destruct (scores !! i) as [s|] eqn:Hi; [|done].
  apply Forall_insert; [done|].
  rewrite Forall_lookup in Hs. specialize (Hs _ _ Hi). simpl in Hs. lia.
Qed.

Lemma add_row_well_formed row scores :
  nonneg row → well_formed scores → well_formed (forEach add_points row scores).
Proof.
  intros Hrow. unfold forEach. apply forEach_from_invariant.
  intros p j s' Hp [Hlen Hnn]. split.
  - by rewrite add_points_length.
  - apply add_points_nonneg; [|done].
    unfold nonneg in Hrow. rewrite Forall_forall in Hrow. by apply Hrow.
Qed.

Lemma tally_from_returns answers i scores :
  well_formed scores →
  ∃ scores', forEachE_from score_answer answers i scores = Returns scores'
             ∧ well_formed scores'.
Proof.
  revert i scores. induction answers as [|a answers IH]; intros i scores Hwf; simpl.
  - by exists scores.
  - rewrite score_answer_eq. simpl. apply IH.
    destruct (chosen_row i a) as [row|] eqn:Hrow; simpl; [|done].
    apply add_row_well_formed; [|done]. by apply (SCORING_rows i a).
Qed.

Lemma tally_returns answers :
  ∃ scores, tally answers = Returns scores ∧ well_formed scores.
Proof.
  apply tally_from_returns. split; [reflexivity | unfold nonneg; repeat constructor; lia].
Qed.

Lemma find_winner_scan scores : find_winner scores = scan_winner scores.
Proof.
  unfold find_winner, scan_winner, forEach. generalize 0%nat at 1 3. generalize 0 at 1 2.
  generalize 0%nat. induction scores as [|x l IH]; intros i m w; simpl; [done|].
  unfold keep_highest at 2. simpl. rewrite Z.gtb_ltb.
  destruct (m <? x); apply IH.
Qed.

Lemma keep_highest_spec l i m0 w0 m w :
  forEach_from keep_highest l i (m0, w0) = (m, w) →
  m0 ≤ m
  ∧ (∀ j s, l !! j = Some s → s ≤ m)
  ∧ ((m = m0 ∧ w = w0)
     ∨ ∃ k, w = (i + k)%nat ∧ l !! k = Some m ∧ m0 < m
            ∧ ∀ j s, (j < k)%nat → l !! j = Some s → s < m).
Proof.
  revert i m0 w0. induction l as [|x l IH]; intros i m0 w0; simpl.
  - intros [= <- <-]. split; [lia|]. split; [done|]. by left.
  - unfold keep_highest at 2. simpl. destruct (m0 <? x) eqn:Hx; intros Hrun.
    + apply Z.ltb_lt in Hx.
      destruct (IH _ _ _ Hrun) as (Hle & Hall & Hcase).
      split; [lia|]. split.
      { intros [|j] s; simpl; [intros [= <-]; lia | apply Hall]. }
      right. destruct Hcase as [[-> ->] | (k & -> & Hk & Hlt & Hbefore)].
      * exists 0%nat. repeat split; [lia | done | lia].
      * exists (S k). repeat split; [lia | done | lia |].
        intros [|j] s Hj; simpl; [intros [= <-]; lia | apply Hbefore; lia].
    + apply Z.ltb_ge in Hx.
      destruct (IH _ _ _ Hrun) as (Hle & Hall & Hcase).
      split; [lia|]. split.
      { intros [|j] s; simpl; [intros [= <-]; lia | apply Hall]. }
      destruct Hcase as [[-> ->] | (k & -> & Hk & Hlt & Hbefore)]; [by left|].
      right. exists (S k). repeat split; [lia | done | lia |].
      intros [|j] s Hj; simpl; [intros [= <-]; lia | apply Hbefore; lia].
Qed.

Lemma find_winner_first_maximum scores :
  well_formed scores → first_maximum scores (find_winner scores).
Proof.
  intros [Hlen Hnn]. unfold find_winner, forEach.
  destruct (forEach_from keep_highest scores 0 (0, 0%nat)) as [m w] eqn:Hrun. simpl.
  destruct (keep_highest_spec _ _ _ _ _ _ Hrun) as (_ & Hall & Hcase).
  destruct Hcase as [[-> ->] | (k & -> & Hk & _ & Hbefore)].
  - destruct scores as [|s0 scores]; [done|].
    exists s0. split; [done|]. unfold nonneg in Hnn.
    assert (s0 = 0) as ->.
    { apply Forall_cons in Hnn as [H0 _]. specialize (Hall 0%nat s0 eq_refl). lia. }
    split; [done | intros; lia].
  - exists m. simpl. split; [done|]. split; [done|]. apply Hbefore.
Qed.

Lemma tally_from_unanswered answers i scores :
  (∀ a, a ∈ answers → a < 0) →
  forEachE_from score_answer answers i scores = Returns scores.
Proof.
  revert i. induction answers as [|a answers IH]; intros i Hneg; simpl; [done|].
  rewrite score_answer_eq. unfold chosen_row.
  replace (0 <=? a) with false.
  2:{ symmetry. apply Z.leb_gt. apply Hneg. by left. }
  rewrite andb_false_r. simpl. apply IH. intros b Hb. apply Hneg. by right.
Qed.

(** C4: the winner is selected by the scan with a running maximum that
    starts at 0 and a running winner that starts at persona 0 and changes
    only on a strictly greater score; hence among several personas with
    the maximal score the lowest-indexed wins, and an empty or wholly
    unanswered vector gives persona 0, morning-minimalist. *)
Theorem calculatePersona_winner_selection (answers : list Z) :
  ∃ scores winner tag,
    tally answers = Returns scores
    ∧ winner = scan_winner scores
    ∧ PERSONAS !! winner = Some tag
    ∧ calculatePersona answers = Returns (TagStr tag)
    ∧ first_maximum scores winner
    ∧ ((∀ a, a ∈ answers → a < 0) →
       scores = [0; 0; 0; 0; 0; 0] ∧ winner = 0%nat ∧ tag = "morning-minimalist").
Proof.
  destruct (tally_returns answers) as (scores & Htally & Hwf).
  pose proof (find_winner_first_maximum scores Hwf) as Hmax.
  assert (Hw : (find_winner scores < length PERSONAS)%nat).
  { destruct Hmax as (top & Htop & _). apply lookup_lt_Some in Htop.
    destruct Hwf as [Hlen _]. rewrite Hlen in Htop. exact Htop. }
  apply lookup_lt_is_Some_2 in Hw as [tag Htag].
  exists scores, (find_winner scores), tag.
  split; [done|]. split; [apply find_winner_scan|]. split; [done|].
  split. { unfold calculatePersona. rewrite Htally. simpl. by rewrite Htag. }
  split; [done|].
  intros Hneg. unfold tally, forEachE in Htally.
  rewrite tally_from_unanswered in Htally by done.
  injection Htally as <-. split; [done|]. split; [done|].
  by injection Htag as <-.
Qed.

(** C5, as stated, fails: for the answers [3,3,3,3] the non-barista total
    is 2+2+0+0 = 4, not 5, and office-manager reaches 4 as well. *)
Lemma classify_3333_not_strictly_highest :
  tally [3; 3; 3; 3] = Returns [0; 0; 3; 0; 4; 4]
  ∧ ¬ (∃ scores, tally [3; 3; 3; 3] = Returns scores ∧ strictly_highest scores 4).
Proof.
  split; [reflexivity|].
  intros (scores & Htally & top & Htop & Hlt).
  change (tally [3; 3; 3; 3]) with (Returns [0; 0; 3; 0; 4; 4]) in Htally.
  injection Htally as <-. injection Htop as <-.
  specialize (Hlt 5%nat 4 ltac:(lia) eq_refl). lia.
Qed.

(** C5, amended: for the answers [3,3,3,3] the classifier returns
    non-barista; its total, 4, equals the office-manager total and is
    strictly above the four others, and it wins the tie as the
    lower-indexed of the two. *)
Theorem classify_3333_non_barista_by_tie_break :
  calculatePersona [3; 3; 3; 3] = Returns (TagStr "non-barista")
  ∧ PERSONAS !! 4%nat = Some "non-barista"
  ∧ PERSONAS !! 5%nat = Some "office-manager"
  ∧ ∃ scores,
      tally [3; 3; 3; 3] = Returns scores
      ∧ scores !! 4%nat = Some 4
      ∧ scores !! 5%nat = Some 4
      ∧ (∀ i s, i ≠ 4%nat → i ≠ 5%nat → scores !! i = Some s → s < 4)
      ∧ first_maximum scores 4.
Proof.
  split; [reflexivity|]. split; [reflexivity|]. split; [reflexivity|].
  exists [0; 0; 3; 0; 4; 4].
  split; [reflexivity|]. split; [reflexivity|]. split; [reflexivity|]. split.
  - intros [|[|[|[|[|[|i]]]]]] s; simpl; intros; simplify_eq; lia.
  - exists 4. split; [reflexivity|]. split.
    + intros [|[|[|[|[|[|i]]]]]] s; simpl; intros; simplify_eq; lia.
    + intros [|[|[|[|j]]]] s; simpl; intros; simplify_eq; lia.
Qed.

Lemma chosen_row_clamp q a : chosen_row q (Z.min a 3) = chosen_row q a.
Proof.
  unfold chosen_row.
  replace (0 <=? Z.min a 3) with (0 <=? a).
  2:{ destruct (0 <=? a) eqn:Ha; symmetry;
      [apply Z.leb_le in Ha; apply Z.leb_le | apply Z.leb_gt in Ha; apply Z.leb_gt]; lia. }
  by replace (Z.min (Z.min a 3) 3) with (Z.min a 3) by lia.
Qed.

Lemma tally_from_clamp answers i scores :
  forEachE_from score_answer ((λ a, Z.min a 3) <$> answers) i scores
  = forEachE_from score_answer answers i scores.
Proof.
  revert i scores. induction answers as [|a answers IH]; intros i scores; simpl; [done|].
  rewrite !score_answer_eq, chosen_row_clamp. simpl. apply IH.
Qed.

Lemma tally_from_beyond answers i scores :
  (4 ≤ i)%nat → forEachE_from score_answer answers i scores = Returns scores.
Proof.
  revert i. induction answers as [|a answers IH]; intros i Hi; simpl; [done|].
  rewrite score_answer_eq. unfold chosen_row.
  rewrite bool_decide_eq_false_2 by lia. simpl. apply IH. lia.
Qed.

Lemma tally_take_4 answers : tally (take 4 answers) = tally answers.
Proof.
  unfold tally, forEachE.
  rewrite <- (take_drop 4 answers) at 2. rewrite forEachE_from_app.
  destruct (decide (length answers ≤ 4)%nat) as [Hshort|Hlong].
  - rewrite (drop_ge answers 4) by done. simpl.
    by destruct (forEachE_from score_answer (take 4 answers) 0 _).
  - rewrite length_take_le by lia.
    destruct (forEachE_from score_answer (take 4 answers) 0 _); simpl; [|done].
    by rewrite tally_from_beyond.
Qed.

(** The classifier returns one of the six tags. *)
Lemma calculatePersona_returns_tag (answers : list Z) :
  ∃ tag, calculatePersona answers = Returns (TagStr tag) ∧ tag ∈ PERSONAS.
Proof.
  destruct (tally_returns answers) as (scores & Htally & Hwf).
  destruct (find_winner_first_maximum scores Hwf) as (top & Htop & _).
  apply lookup_lt_Some in Htop. destruct Hwf as [Hlen _]. rewrite Hlen in Htop.
  destruct (lookup_lt_is_Some_2 PERSONAS (find_winner scores) Htop) as [tag Htag].
  exists tag. split.
  - unfold calculatePersona. rewrite Htally. simpl. by rewrite Htag.
  - by apply list_elem_of_lookup_2 in Htag.
Qed.

(** C6: the classifier is total.  Every list of integers, whatever its
    length and entries, yields one of the six persona tags; an option
    index beyond the last authored option (index 3 of each of the four
    questions) counts as that last option, and entries beyond the fourth
    are ignored. *)
Theorem calculatePersona_total (answers : list Z) :
  (∃ tag, calculatePersona answers = Returns (TagStr tag) ∧ tag ∈ PERSONAS)
  ∧ Forall (λ options : list (list Z), length options = 4%nat) SCORING
  ∧ length SCORING = 4%nat
  ∧ calculatePersona ((λ a, Z.min a 3) <$> answers) = calculatePersona answers
  ∧ calculatePersona (take 4 answers) = calculatePersona answers.
Proof.
  split; [apply calculatePersona_returns_tag|].
  split; [by repeat constructor|]. split; [done|]. split.
  - unfold calculatePersona, tally, forEachE. by rewrite tally_from_clamp.
  - unfold calculatePersona. by rewrite tally_take_4.
Qed.

(** ** The variant registry *)

Lemma slice0_nonneg {A} (arr : list A) (limit : Z) :
  0 ≤ limit → slice0 arr limit = take (Z.to_nat (Z.min limit (Z.of_nat (length arr)))) arr.
Proof. intros H. unfold slice0. by replace (limit <? 0) with false by lia. Qed.

Lemma slice0_negative {A} (arr : list A) (limit : Z) :
  limit < 0 → slice0 arr limit = take (Z.to_nat (Z.of_nat (length arr) + limit)) arr.
Proof.
  intros H. unfold slice0. replace (limit <? 0) with true by lia.
  f_equal. lia.
Qed.

Lemma slice0_first_elements (entry : list string) (limit : Z) :
  first_elements entry limit (Returns (slice0 entry limit)).
Proof.
  exists (slice0 entry limit). split; [done|]. repeat split.
  - apply slice0_nonneg.
  - intros H. rewrite slice0_nonneg by lia. apply take_ge. lia.
  - intros ->. rewrite slice0_nonneg by lia.
    by replace (Z.to_nat (Z.min 0 (Z.of_nat (length entry)))) with 0%nat by lia.
  - apply slice0_negative.
  - intros H. destruct (decide (limit < 0)) as [Hneg|Hzero].
    + rewrite slice0_negative by done.
      replace (Z.to_nat (Z.of_nat (length entry) + limit)) with 0%nat by lia. done.
    + rewrite slice0_nonneg by lia.
      by replace (Z.to_nat (Z.min limit (Z.of_nat (length entry)))) with 0%nat by lia.
Qed.

Lemma list_or_default_ordinary table personaTag fallback :
  Object_prototype (tag_to_string personaTag) = None →
  table !! "default" = Some fallback →
  list_or_default table personaTag = Own (persona_list table personaTag).
Proof.
  intros Hproto Hdefault. unfold list_or_default, persona_list, get.
  destruct (table !! tag_to_string personaTag); [done|].
  by rewrite Hproto, Hdefault.
Qed.

(** C3 at the limit [-1]: [slice] counts a negative end from the end of
    the list, so both tables return all but the last element of the
    persona's list where the limit allows none. *)
Theorem list_tables_negative_limit :
  getProductRecommendations (TagStr "upgrader") (Some (-1))
  = Returns ["arco-doppio"; "arco-studio"; "arco-preciso"; "arco-primo"; "arco-macinino"]
  ∧ getBlogFeed (TagStr "upgrader") (Some (-1))
    = Returns [ "why-your-grinder-matters-more-than-your-machine";
                "pre-infusion-what-it-is-and-why-arco-uses-it" ].
Proof. split; vm_compute; reflexivity. Qed.

(** X1: for a tag that is no member name of [Object.prototype], both list
    tables return, without throwing, the first [min(limit, length)]
    elements of the persona's list for every limit at or above 0 (the
    whole list from [limit = length] on, nothing for [limit = 0]) and the
    first [max(length + limit, 0)] elements for a negative limit, which
    is nothing only from [limit = -length] down. *)
Lemma list_tables_limit (personaTag : tagval) (limit : Z) :
  Object_prototype (tag_to_string personaTag) = None →
  first_elements (persona_list PRODUCT_RECS personaTag) limit
    (getProductRecommendations personaTag (Some limit))
  ∧ first_elements (persona_list BLOG_FEEDS personaTag) limit
      (getBlogFeed personaTag (Some limit)).
Proof.
  intros Hproto. split.
  - unfold getProductRecommendations. simpl.
    erewrite list_or_default_ordinary; [apply slice0_first_elements | done | reflexivity].
  - unfold getBlogFeed. simpl.
    erewrite list_or_default_ordinary; [apply slice0_first_elements | done | reflexivity].
Qed.

Lemma list_tables_limit_upgrader :
  Object_prototype (tag_to_string (TagStr "upgrader")) = None
  ∧ first_elements (persona_list PRODUCT_RECS (TagStr "upgrader")) 2
      (getProductRecommendations (TagStr "upgrader") (Some 2))
  ∧ first_elements (persona_list BLOG_FEEDS (TagStr "upgrader")) 2
      (getBlogFeed (TagStr "upgrader") (Some 2)).
Proof.
  split; [reflexivity|].
  apply (list_tables_limit (TagStr "upgrader") 2). reflexivity.
Defined.

(** ** The redirect target *)

Lemma slugMap_entries k slug :
  slugMap !! k = Some slug →
  k ∈ PERSONAS ∧ slug ≠ EmptyString ∧ ("/experiences/core/" +:+ slug) ∈ experience_urls.
Proof.
  intros H. apply elem_of_list_to_map_2 in H.
  list_cases H; simplify_eq; (split; [|split]); first [done | by_evaluation].
Qed.

Lemma slugMap_unrecognized k : k ∉ PERSONAS → slugMap !! k = None.
Proof.
  intros Hk. destruct (slugMap !! k) as [slug|] eqn:H; [|done].
  by apply slugMap_entries in H as [? _].
Qed.

(** X2: for a tag that is no member name of [Object.prototype] the mapping is
    total onto the five experience URLs, with the fallback for any tag
    outside the taxonomy. *)
Lemma getResultPage_ordinary (personaTag : tagval) :
  Object_prototype (tag_to_string personaTag) = None →
  getResultPage personaTag ∈ experience_urls
  ∧ (tag_to_string personaTag ∉ PERSONAS →
     getResultPage personaTag = "/experiences/core/morning-minimalist").
Proof.
  intros Hproto. unfold getResultPage, get. rewrite Hproto.
  destruct (slugMap !! tag_to_string personaTag) as [slug|] eqn:Hslug.
  - destruct (slugMap_entries _ _ Hslug) as (Hk & Hne & Hurl).
    replace (String.eqb slug EmptyString) with false.
    2:{ symmetry. by apply String.eqb_neq. }
    split; [done | by intros []].
  - split; [by_evaluation | done].
Qed.

Lemma getResultPage_collapse :
  getResultPage (TagStr "non-barista") = "/experiences/core/the-non-barista"
  ∧ getResultPage (TagStr "office-manager") = "/experiences/core/the-non-barista"
  ∧ getResultPage TagNull = "/experiences/core/morning-minimalist"
  ∧ getResultPage TagUndefined = "/experiences/core/morning-minimalist".
Proof. repeat split; vm_compute; reflexivity. Qed.

(** C9 at the tag [constructor]: the lookup in [slugMap] finds the
    function [Object] on the prototype chain, which is truthy, so the
    fallback slug is not used and the result is none of the five
    experience URLs. *)
Theorem getResultPage_inherited_member :
  ("constructor" ∉ PERSONAS)
  ∧ getResultPage (TagStr "constructor")
    = "/experiences/core/function Object() { [native code] }"
  ∧ (getResultPage (TagStr "constructor") ∉ experience_urls).
Proof.
  split; [by_evaluation|]. split; [vm_compute; reflexivity | by_evaluation].
Qed.

(** ** Page composition *)

Lemma stamp_lookup (assembled : gmap string value) (persona : tagval) (isoNow k : string) :
  k ∉ stamped_fields →
  <["_assembled_at" := VStr isoNow]> (<["_persona" := tag_value persona]> assembled) !! k
  = assembled !! k.
Proof.
  intros Hk. apply not_elem_of_cons in Hk as [H1 Hk].
  apply not_elem_of_cons in Hk as [H2 _].
  by rewrite !lookup_insert_ne.
Qed.

(** The homepage branch for a persona whose key is no member name of
    [Object.prototype]: the five variant fields hold the registry
    lookups, everything else is the base content. *)
Lemma assemble_homepage_ordinary (persona : tagval) (base : gmap string value) :
  Object_prototype (tag_to_string persona) = None →
  ∃ assembled,
    assemble_homepage persona base = Returns assembled
    ∧ assembled !! "hero" = Some (getHeroVariant persona)
    ∧ assembled !! "products"
      = Some (strings_value (take 3 (persona_list PRODUCT_RECS persona)))
    ∧ assembled !! "blog_feed"
      = Some (strings_value (take 3 (persona_list BLOG_FEEDS persona)))
    ∧ assembled !! "experience_cta" = Some (getExperienceCTA persona)
    ∧ assembled !! "nav_override" = Some (getNavigationOverride persona)
    ∧ ∀ k, k ∉ variant_fields → assembled !! k = base !! k.
Proof.
  intros Hproto. unfold assemble_homepage, getProductRecommendations, getBlogFeed.
  simpl default.
  erewrite !list_or_default_ordinary; [|done|reflexivity|done|reflexivity].
  simpl. eexists. split; [reflexivity|].
  rewrite !slice0_nonneg by lia.
  assert (Htake : ∀ l : list string,
             take (Z.to_nat (Z.min 3 (Z.of_nat (length l)))) l = take 3 l).
  { intros l. destruct (decide (length l ≤ 3)%nat).
    - rewrite !take_ge by lia. done.
    - f_equal. lia. }
  rewrite !Htake.
  repeat split; try by simplify_map_eq.
  intros k Hk. unfold variant_fields in Hk.
  repeat (apply not_elem_of_cons in Hk as [? Hk]).
  by rewrite !lookup_insert_ne.
Qed.

(** X3: the fallbacks of the three object tables. *)
Lemma variant_defaults (personaTag : tagval) :
  Object_prototype (tag_to_string personaTag) = None →
  (HERO_VARIANTS !! tag_to_string personaTag = None →
   Some (getHeroVariant personaTag) = HERO_VARIANTS !! "default")
  ∧ (EXPERIENCE_CTAS !! tag_to_string personaTag = None →
     Some (getExperienceCTA personaTag) = EXPERIENCE_CTAS !! "default")
  ∧ (overrides !! tag_to_string personaTag = None →
     getNavigationOverride personaTag
     = object [ ("promote", VArr []); ("demote", VArr []); ("cta", VNull) ]).
Proof.
  intros Hproto. unfold getHeroVariant, getExperienceCTA, getNavigationOverride, get.
  rewrite Hproto. repeat split; intros ->; reflexivity.
Qed.

(** X4: on the homepage exactly the five variant fields and the two stamped
    fields are set; every other field of the base content passes through. *)
Lemma composePage_homepage_frame personaTag (base : gmap string value) cookie isoNow persona :
  effective_persona personaTag cookie = Returns persona →
  Object_prototype (tag_to_string persona) = None →
  ∃ assembled,
    composePage "homepage" personaTag base cookie isoNow = Returns assembled
    ∧ assembled !! "hero" = Some (getHeroVariant persona)
    ∧ assembled !! "products"
      = Some (strings_value (take 3 (persona_list PRODUCT_RECS persona)))
    ∧ assembled !! "blog_feed"
      = Some (strings_value (take 3 (persona_list BLOG_FEEDS persona)))
    ∧ assembled !! "experience_cta" = Some (getExperienceCTA persona)
    ∧ assembled !! "nav_override" = Some (getNavigationOverride persona)
    ∧ assembled !! "_persona" = Some (tag_value persona)
    ∧ assembled !! "_assembled_at" = Some (VStr isoNow)
    ∧ ∀ k, k ∉ variant_fields → k ∉ stamped_fields → assembled !! k = base !! k.
Proof.
  intros Hpersona Hproto. unfold composePage.
  fold (effective_persona personaTag cookie). rewrite Hpersona. simpl.
  destruct (assemble_homepage_ordinary persona base Hproto)
    as (a & -> & Hhero & Hproducts & Hfeed & Hcta & Hnav & Hframe).
  simpl. eexists. split; [reflexivity|].
  repeat split; try (by simplify_map_eq).
  intros k Hk1 Hk2. rewrite stamp_lookup by done. by apply Hframe.
Qed.

(** C7 at the tag [constructor], passed explicitly or read from the
    cookie: [PRODUCT_RECS[persona]] is the inherited function [Object],
    which is truthy and has no [slice] method, so the call throws instead
    of falling back to the default entries. *)
Theorem composePage_homepage_inherited_member (base : gmap string value) (isoNow : string) :
  (∀ cookie, composePage "homepage" (TagStr "constructor") base cookie isoNow
             = Throws TypeError)
  ∧ composePage "homepage" TagNull base "arco_persona=constructor" isoNow
    = Throws TypeError
  ∧ getHeroVariant (TagStr "constructor") = VBuiltin (BuiltinFunction "Object").
Proof. repeat split. Qed.

(** The clock reading reaches the result only through the stamp. *)
Lemma composePage_stamp pageType personaTag (base : gmap string value) cookie :
  ∃ r : result (tagval * gmap string value),
    (∀ now : string,
       composePage pageType personaTag base cookie now
       = map_result (λ '(persona, assembled),
           <["_assembled_at" := VStr now]> (<["_persona" := tag_value persona]> assembled)) r)
    ∧ r = (persona ← effective_persona personaTag cookie;
           assembled ← (if decide (pageType = "homepage")
                        then assemble_homepage persona base else Returns base);
           Returns (persona,
                    if decide (pageType = "pdp")
                    then assemble_pdp persona base assembled else assembled)).
Proof.
  eexists. split; [|reflexivity]. intros now. unfold composePage.
  fold (effective_persona personaTag cookie).
  destruct (effective_persona personaTag cookie) as [persona|e]; simpl; [|done].
  destruct (decide (pageType = "homepage")); simpl; [|done].
  by destruct (assemble_homepage persona base).
Qed.

(** C8: two calls with the same page type, tag, base content and cookie
    produce the same outcome, the [_assembled_at] field apart: the same
    object once that field is removed, or the same exception. *)
Theorem composePage_deterministic_up_to_timestamp
    pageType personaTag (base : gmap string value) cookie (now1 now2 : string) :
  map_result (delete "_assembled_at") (composePage pageType personaTag base cookie now1)
  = map_result (delete "_assembled_at") (composePage pageType personaTag base cookie now2).
Proof.
  destruct (composePage_stamp pageType personaTag base cookie) as (r & Hr & _).
  rewrite !Hr. destruct r as [[persona assembled]|e]; simpl; [|done].
  by rewrite !delete_insert_eq.
Qed.

(** C10: the empty string, [null] and [undefined] are interchangeable as
    the explicit tag: each makes the call fall back to the cookie, so the
    empty string is never the persona key when the cookie holds a tag;
    across two clock readings the outcomes agree up to [_assembled_at]. *)
Theorem composePage_falsy_tag pageType (base : gmap string value) (cookie isoNow : string) :
  composePage pageType (TagStr EmptyString) base cookie isoNow
  = composePage pageType TagNull base cookie isoNow
  ∧ composePage pageType TagUndefined base cookie isoNow
    = composePage pageType TagNull base cookie isoNow
  ∧ effective_persona (TagStr EmptyString) cookie = getPersonaFromCookie cookie
  ∧ (∀ stored, tag_truthy stored = true →
       getPersonaFromCookie cookie = Returns stored →
       composePage pageType (TagStr EmptyString) base cookie isoNow
       = composePage pageType stored base cookie isoNow)
  ∧ (∀ later : string,
       map_result (delete "_assembled_at")
         (composePage pageType (TagStr EmptyString) base cookie isoNow)
       = map_result (delete "_assembled_at")
           (composePage pageType TagNull base cookie later)).
Proof.
  split; [reflexivity|]. split; [reflexivity|]. split; [reflexivity|]. split.
  - intros stored Htruthy Hstored. unfold composePage. simpl tag_truthy.
    by rewrite Htruthy, Hstored.
  - intros later.
    change (composePage pageType (TagStr EmptyString) base cookie isoNow)
      with (composePage pageType TagNull base cookie isoNow).
    destruct (composePage_stamp pageType TagNull base cookie) as (r & Hr & _).
    rewrite !Hr. destruct r as [[persona assembled]|e]; simpl; [|done].
    by rewrite !delete_insert_eq.
Qed.

(** ** The override merge of the product page *)

(** C1, as stated, fails for the stamped fields and for the accessor
    name: an override of [_assembled_at] does not reach the result, the
    base value of [_persona] is not retained, and an override property
    named [__proto__] creates no property on a target that has none. *)
Lemma composePage_pdp_stamp_wins :
  let override := object [ ("_assembled_at", VStr "never"); ("__proto__", VNum 1) ] in
  let base : gmap string value :=
    list_to_map [ ("persona_overrides", object [ ("upgrader", override) ]);
                  ("_persona", VStr "guest") ] in
  ∃ assembled,
    composePage "pdp" (TagStr "upgrader") base EmptyString "2026-01-01T00:00:00.000Z"
    = Returns assembled
    ∧ own_property override "_assembled_at" = Some (VStr "never")
    ∧ assembled !! "_assembled_at" = Some (VStr "2026-01-01T00:00:00.000Z")
    ∧ base !! "_persona" = Some (VStr "guest")
    ∧ own_property override "_persona" = None
    ∧ assembled !! "_persona" = Some (VStr "upgrader")
    ∧ own_property override "__proto__" = Some (VNum 1)
    ∧ assembled !! "__proto__" = None.
Proof. eexists. repeat split; vm_compute; reflexivity. Qed.

Lemma Object_assign_lookup (target source : gmap string value) (k : string) :
  k ≠ "__proto__" →
  Object_assign target source !! k
  = match source !! k with Some v => Some v | None => target !! k end.
Proof.
  intros Hk. unfold Object_assign.
  destruct (decide (is_Some (target !! "__proto__"))).
  - rewrite lookup_union. destruct (source !! k), (target !! k); done.
  - rewrite lookup_union, lookup_delete_ne by done.
    destruct (source !! k), (target !! k); done.
Qed.

Lemma Object_assign_retains (target source : gmap string value) (k : string) :
  source !! k = None → Object_assign target source !! k = target !! k.
Proof.
  intros Hk. unfold Object_assign.
  destruct (decide (is_Some (target !! "__proto__"))).
  - rewrite lookup_union, Hk. by destruct (target !! k).
  - rewrite lookup_union. destruct (decide (k = "__proto__")) as [->|Hne].
    + rewrite lookup_delete_eq. by destruct (target !! "__proto__").
    + rewrite lookup_delete_ne, Hk by done. by destruct (target !! k).
Qed.

(** C1, amended: on the product page (page type [pdp]), for a non-empty
    tag whose entry in [persona_overrides] is an object, the override is
    assigned over a copy of the base content.  Apart from [_persona] and
    [_assembled_at], which always hold the stamp, every key of the
    override other than [__proto__] carries the override's value as it
    is, with no merging into the base value, and every base key absent
    from the override is retained. *)
Theorem composePage_pdp_override
    (tag : string) (base overrides override : gmap string value) (cookie isoNow : string) :
  tag ≠ EmptyString →
  base !! "persona_overrides" = Some (VObj overrides) →
  overrides !! tag = Some (VObj override) →
  ∃ assembled,
    composePage "pdp" (TagStr tag) base cookie isoNow = Returns assembled
    ∧ (∀ k v, k ∉ reserved_fields → override !! k = Some v → assembled !! k = Some v)
    ∧ (∀ k, k ∉ stamped_fields → override !! k = None → assembled !! k = base !! k)
    ∧ assembled !! "_persona" = Some (VStr tag)
    ∧ assembled !! "_assembled_at" = Some (VStr isoNow).
Proof.
  intros Htag Hbase Hoverride.
  assert (Htruthy : tag_truthy (TagStr tag) = true).
  { simpl. apply negb_true_iff. by apply String.eqb_neq. }
  unfold composePage. rewrite Htruthy. cbn [bind].
  destruct (decide ("pdp" = "homepage")) as [?|_]; [done|]. cbn [bind].
  destruct (decide ("pdp" = "pdp")) as [_|?]; [|done].
  unfold assemble_pdp, persona_override. rewrite Htruthy, Hbase.
  cbn [tag_to_string own_property]. rewrite Hoverride. cbn [truthy own_enumerable].
  eexists. split; [reflexivity|]. split; [|split; [|split]].
  - intros k v Hk Hv. unfold reserved_fields in Hk.
    apply not_elem_of_cons in Hk as [Hproto Hk].
    rewrite stamp_lookup by done. by rewrite Object_assign_lookup, Hv.
  - intros k Hk Hv. rewrite stamp_lookup by done. by apply Object_assign_retains.
  - by simplify_map_eq.
  - by simplify_map_eq.
Qed.

Lemma composePage_pdp_override_witness :
  let base : gmap string value :=
    list_to_map [ ("persona_overrides", object [ ("upgrader", object [ ("price", VNum 10) ]) ]);
                  ("price", VNum 20) ] in
  ∃ assembled,
    composePage "pdp" (TagStr "upgrader") base EmptyString "2026-01-01T00:00:00.000Z"
    = Returns assembled
    ∧ assembled !! "price" = Some (VNum 10)
    ∧ assembled !! "persona_overrides" = base !! "persona_overrides".
Proof.
  intros base.
  destruct (composePage_pdp_override "upgrader" base
              (list_to_map [ ("upgrader", object [ ("price", VNum 10) ]) ])
              (list_to_map [ ("price", VNum 10) ])
              EmptyString "2026-01-01T00:00:00.000Z")
    as (assembled & Hrun & Hset & Hkeep & _); [done | reflexivity | reflexivity |].
  exists assembled. split; [exact Hrun|]. split.
  - apply Hset; [by_evaluation | reflexivity].
  - apply Hkeep; [by_evaluation | reflexivity].
Defined.

(** ** Persisting the persona *)

Lemma encodeURIComponent_persona tag : tag ∈ PERSONAS → encodeURIComponent tag = tag.
Proof. intros H. list_cases H; by subst. Qed.

(** Every completion writes two records, in this order: [arco_persona]
    for 90 days and [arco-brew-style] for 30 days, both root-scoped and
    lax, both holding the canonical tag; then it redirects to the page of
    that tag. *)
Lemma completeQuiz_writes (answers : list Z) (now1 now2 : Z) (w : browser) :
  ∃ tag,
    tag ∈ PERSONAS
    ∧ QuizBlock.calculatePersona answers = Returns (TagStr tag)
    ∧ QuizBlock.completeQuiz answers now1 now2 w
      = Returns (Browser
                   (cookie_writes w ++
                      [ CookieWrite "arco_persona" tag (now1 + days 90) "/" "Lax";
                        CookieWrite "arco-brew-style" tag (now2 + days 30) "/" "Lax" ])
                   (Some (getResultPage (TagStr tag)))).
Proof.
  destruct (calculatePersona_returns_tag answers) as (tag & Hrun & Htag).
  exists tag. split; [done|]. split; [done|].
  unfold QuizBlock.completeQuiz, QuizBlock.calculatePersona. rewrite Hrun. cbn [bind].
  unfold QuizBlock.setCookie. cbn [cookie_writes location_href]. rewrite <- app_assoc.
  list_cases Htag; subst; reflexivity.
Qed.

(** C2 at the answers [1,2,0,2], which classify as upgrader: both
    records are written with their retention, but the record under
    [arco-brew-style] holds the canonical tag [upgrader] itself, which is
    none of the five legacy slugs; no mapping is applied to it. *)
Theorem completeQuiz_legacy_record_holds_canonical_tag (now1 now2 : Z) (w : browser) :
  QuizBlock.calculatePersona [1; 2; 0; 2] = Returns (TagStr "upgrader")
  ∧ QuizBlock.completeQuiz [1; 2; 0; 2] now1 now2 w
    = Returns (Browser
                 (cookie_writes w ++
                    [ CookieWrite "arco_persona" "upgrader" (now1 + days 90) "/" "Lax";
                      CookieWrite "arco-brew-style" "upgrader" (now2 + days 30) "/" "Lax" ])
                 (Some "/experiences/core/the-upgrade-path"))
  ∧ ("upgrader" ∉ legacy_slugs)
  ∧ ("the-upgrade-path" ∈ legacy_slugs).
Proof.
  split; [reflexivity|]. split; [|split; by_evaluation].
  unfold QuizBlock.completeQuiz.
  change (QuizBlock.calculatePersona [1; 2; 0; 2]) with (Returns (TagStr "upgrader")).
  cbn [bind]. unfold QuizBlock.setCookie. cbn [cookie_writes location_href]. rewrite <- app_assoc.
  reflexivity.
Qed.

(** The completion is the last answer's callback: until then nothing is
    written, and the last answer runs the whole completion in one call. *)
Lemma onAnswer_completion (total index : nat) (optIdx : Z) (answers : list Z)
    (now1 now2 : Z) (w : browser) :
  ((index + 1 < total)%nat →
   QuizBlock.onAnswer total index optIdx answers now1 now2 w
   = Returns ((answers ++ [optIdx])%list, QuizBlock.ShowQuestion (index + 1), w))
  ∧ ((total ≤ index + 1)%nat →
     QuizBlock.onAnswer total index optIdx answers now1 now2 w
     = map_result (λ w', ((answers ++ [optIdx])%list, QuizBlock.Completed, w'))
         (QuizBlock.completeQuiz (answers ++ [optIdx])%list now1 now2 w)).
Proof.
  unfold QuizBlock.onAnswer. split; intros H.
  - by rewrite bool_decide_eq_true_2.
  - by rewrite bool_decide_eq_false_2 by lia.
Qed.

(** * Further properties *)

(** ** Reading back what was persisted *)

Ltac each_ascii c := destruct c as [[] [] [] [] [] [] [] []].

Lemma list_ascii_of_string_app (a b : string) :
  list_ascii_of_string (a +:+ b) = (list_ascii_of_string a ++ list_ascii_of_string b)%list.
Proof. induction a as [|c a IH]; simpl; [done | by rewrite IH]. Qed.

Lemma encodeURIComponent_chars (s : string) :
  list_ascii_of_string (encodeURIComponent s)
  = concat (encode_char <$> list_ascii_of_string s).
Proof. unfold encodeURIComponent. by rewrite list_ascii_of_string_of_list_ascii. Qed.

Lemma in_alphabet_spec (c : ascii) :
  unreserved c || Ascii.eqb c "%" = true → percent_or_unreserved c.
Proof.
  intros H. apply orb_true_iff in H as [H|H]; [by left | right].
  by apply Ascii.eqb_eq in H.
Qed.

Lemma encode_char_alphabet (c : ascii) : Forall percent_or_unreserved (encode_char c).
Proof.
  assert (H : forallb (λ x, unreserved x || Ascii.eqb x "%") (encode_char c) = true)
    by (each_ascii c; vm_compute; reflexivity).
  apply Forall_forall. intros x Hx. apply in_alphabet_spec.
  rewrite forallb_forall in H. apply H. by apply list_elem_of_In.
Qed.

Lemma encoded_alphabet (s : string) :
  Forall percent_or_unreserved (list_ascii_of_string (encodeURIComponent s)).
Proof.
  rewrite encodeURIComponent_chars.
  induction (list_ascii_of_string s) as [|c l IH]; csimpl; [constructor|].
  apply Forall_app. split; [apply encode_char_alphabet | exact IH].
Qed.

Lemma alphabet_no_separator (c : ascii) :
  percent_or_unreserved c →
  c ≠ ";"%char ∧ c ≠ ","%char ∧ c ≠ "="%char ∧ c ≠ " "%char ∧ ascii_space c = false.
Proof.
  intros [H| ->]; [|by repeat split].
  assert (Hc : implb (unreserved c)
                 (negb (Ascii.eqb c ";" || Ascii.eqb c "," || Ascii.eqb c "="
                        || Ascii.eqb c " " || ascii_space c)) = true)
    by (each_ascii c; vm_compute; reflexivity).
  rewrite H in Hc. simpl in Hc. apply negb_true_iff in Hc.
  repeat (apply orb_false_iff in Hc as [Hc ?]).
  repeat split; try done; by apply Ascii.eqb_neq.
Qed.

Lemma unescape_encode_char (c : ascii) (rest : list ascii) :
  unescape (encode_char c ++ rest)
  = map_result (cons (negb (unreserved c), N_of_ascii c)) (unescape rest).
Proof.
  assert (Hc : (if unreserved c then negb (Ascii.eqb c "%")
                else match hex_value (hex_digit (N_of_ascii c / 16)),
                           hex_value (hex_digit (N_of_ascii c mod 16)) with
                     | Some a, Some b => (16 * a + b =? N_of_ascii c)%N
                     | _, _ => false
                     end) = true)
    by (each_ascii c; vm_compute; reflexivity).
  unfold encode_char. destruct (unreserved c).
  - simpl. apply negb_true_iff in Hc. by rewrite Hc.
  - unfold percent_encode. cbn [app unescape Ascii.eqb Bool.eqb andb].
    destruct (hex_value (hex_digit (N_of_ascii c / 16))) as [a|]; [|done].
    destruct (hex_value (hex_digit (N_of_ascii c mod 16))) as [b|]; [|done].
    apply N.eqb_eq in Hc. by rewrite Hc.
Qed.

Lemma unescape_encoded (l : list ascii) :
  unescape (concat (encode_char <$> l))
  = Returns ((λ c, (negb (unreserved c), N_of_ascii c)) <$> l).
Proof.
  induction l as [|c l IH]; [done|]. csimpl.
  by rewrite unescape_encode_char, IH.
Qed.

Lemma decode_octets_ascii (toks : list (bool * N)) :
  Forall (λ t, (snd t < 128)%N) toks → decode_octets toks [] = Returns (snd <$> toks).
Proof.
  induction 1 as [|[escaped b] toks Hb _ IH]; simpl; [done|]. simpl in Hb.
  replace (128 <=? b)%N with false by (symmetry; apply N.leb_gt; lia).
  rewrite andb_false_r, IH. done.
Qed.

Lemma decode_encode_ascii (s : string) :
  ascii_only s → decodeURIComponent (encodeURIComponent s) = Returns s.
Proof.
  intros Hs. unfold decodeURIComponent, ascii_only in *.
  rewrite encodeURIComponent_chars, unescape_encoded. cbn [bind].
  rewrite decode_octets_ascii.
  2:{ rewrite Forall_fmap. eapply Forall_impl; [exact Hs|]. intros c Hc. exact Hc. }
  cbn [bind]. f_equal.
  rewrite <- (string_of_list_ascii_of_string s) at 2. f_equal.
  induction (list_ascii_of_string s) as [|c l IH]; csimpl; [done|].
  rewrite ascii_N_embedding. f_equal. apply IH. by eapply Forall_inv_tail.
Qed.

Lemma up_to_semicolon_group (group post : list ascii) :
  Forall (λ c, c ≠ ";"%char) group →
  (post = [] ∨ ∃ rest, post = ";"%char :: rest) →
  up_to_semicolon (group ++ post) = group.
Proof.
  intros Hgroup Hpost. induction Hgroup as [|c group Hc _ IH]; simpl.
  - by destruct Hpost as [->|[rest ->]].
  - replace (Ascii.eqb c ";") with false by (symmetry; by apply Ascii.eqb_neq).
    by rewrite IH.
Qed.

Lemma ends_pair_chars (suffix : string) :
  ends_pair suffix →
  list_ascii_of_string suffix = [] ∨ ∃ rest, list_ascii_of_string suffix = ";"%char :: rest.
Proof. intros [->|[rest ->]]; [by left | right; by eexists]. Qed.

Lemma strip_prefix_app (prefix rest : list ascii) :
  strip_prefix prefix (prefix ++ rest) = Some rest.
Proof.
  induction prefix as [|c prefix IH]; simpl; [by destruct rest|].
  by rewrite Ascii.eqb_refl.
Qed.

Lemma match_pair_literal (rest : list ascii) :
  match_pair (list_ascii_of_string "arco_persona=" ++ rest) = Some (up_to_semicolon rest).
Proof. unfold match_pair. by rewrite strip_prefix_app. Qed.

(** The pair written for an ASCII tag reads back as that tag, whatever
    follows the pair in the cookie text. *)
Lemma read_encoded_pair (tag suffix : string) :
  ascii_only tag → ends_pair suffix →
  getPersonaFromCookie ("arco_persona=" +:+ encodeURIComponent tag +:+ suffix)
  = Returns (TagStr tag).
Proof.
  intros Htag Hsuffix. unfold getPersonaFromCookie, match_cookie.
  rewrite !list_ascii_of_string_app, match_pair_literal, up_to_semicolon_group.
  - cbn [fmap option_fmap option_map]. rewrite string_of_list_ascii_of_string.
    by rewrite decode_encode_ascii.
  - eapply Forall_impl; [apply encoded_alphabet|]. intros c Hc.
    by apply alphabet_no_separator in Hc as [? _].
  - by apply ends_pair_chars.
Qed.

(** X5: a tag of ASCII characters persisted by [setPersonaCookie] is
    the tag [getPersonaFromCookie] reads from a cookie text that starts
    with the written pair, whatever pairs follow it; the record is
    written under [arco_persona] with 90 days to live. *)
Theorem persona_cookie_round_trip (tag suffix : string) (now : Z) (w : browser) :
  ascii_only tag → ends_pair suffix →
  ∃ write,
    cookie_writes (setPersonaCookie (TagStr tag) now w) = (cookie_writes w ++ [write])%list
    ∧ ck_name write = "arco_persona"
    ∧ ck_expires write = now + days 90
    ∧ getPersonaFromCookie (ck_name write +:+ "=" +:+ ck_value write +:+ suffix)
      = Returns (TagStr tag).
Proof.
  intros Htag Hsuffix. eexists. split; [reflexivity|].
  split; [reflexivity|]. split; [reflexivity|].
  cbn [ck_name ck_value tag_to_string].
  by apply (read_encoded_pair tag suffix).
Qed.

Lemma persona_cookie_round_trip_witness :
  ∃ write,
    cookie_writes (setPersonaCookie (TagStr "craft-barista") 0 (Browser [] None))
    = ([] ++ [write])%list
    ∧ ck_name write = "arco_persona"
    ∧ ck_expires write = 0 + days 90
    ∧ getPersonaFromCookie (ck_name write +:+ "=" +:+ ck_value write +:+ "; theme=dark")
      = Returns (TagStr "craft-barista").
Proof.
  apply (persona_cookie_round_trip "craft-barista" "; theme=dark" 0 (Browser [] None)).
  - unfold ascii_only. simpl. repeat (constructor; [reflexivity|]). constructor.
  - right. by eexists.
Defined.









(** ** The classifier and the quiz around it *)

(** X8: every persona is the outcome of some complete quiz, four
    answers each among the four authored options; with C6 the outcomes
    of the classifier are exactly the six tags. *)
Theorem every_persona_is_reachable (tag : string) :
  tag ∈ PERSONAS →
  ∃ answers, length answers = 4%nat
             ∧ Forall (λ a, 0 ≤ a ≤ 3) answers
             ∧ calculatePersona answers = Returns (TagStr tag).
Proof.
  intros Htag. list_cases Htag; subst.
  - exists [0; 0; 0; 0]. (split; [reflexivity|]); (split; [repeat constructor; lia | reflexivity]).
  - exists [1; 1; 0; 2]. (split; [reflexivity|]); (split; [repeat constructor; lia | reflexivity]).
  - exists [2; 2; 0; 3]. (split; [reflexivity|]); (split; [repeat constructor; lia | reflexivity]).
  - exists [2; 0; 2; 0]. (split; [reflexivity|]); (split; [repeat constructor; lia | reflexivity]).
  - exists [3; 3; 1; 1]. (split; [reflexivity|]); (split; [repeat constructor; lia | reflexivity]).
  - exists [2; 3; 3; 2]. (split; [reflexivity|]); (split; [repeat constructor; lia | reflexivity]).
Qed.

Lemma every_persona_is_reachable_witness :
  ∃ answers, length answers = 4%nat
             ∧ Forall (λ a, 0 ≤ a ≤ 3) answers
             ∧ calculatePersona answers = Returns (TagStr "office-manager").
Proof. apply (every_persona_is_reachable "office-manager"). by_evaluation. Defined.

Lemma getResultPage_persona (tag : string) :
  tag ∈ PERSONAS → getResultPage (TagStr tag) ∈ experience_urls.
Proof. intros Htag. list_cases Htag; subst; by_evaluation. Qed.

(** While questions remain, each answer is only appended. *)
Lemma showQuestion_waits (total : nat) (clicks : list Z) (index : nat) (answers : list Z)
    (now1 now2 : Z) (w : browser) :
  (index + length clicks < total)%nat →
  QuizBlock.showQuestion total clicks index answers now1 now2 w
  = Returns ((answers ++ clicks)%list, QuizBlock.ShowQuestion (index + length clicks), w).
Proof.
  revert index answers. induction clicks as [|optIdx clicks IH]; intros index answers Hlt.
  - simpl. by rewrite app_nil_r, Nat.add_0_r.
  - simpl in *. unfold QuizBlock.onAnswer.
    rewrite bool_decide_eq_true_2 by lia. cbn [bind].
    rewrite IH by lia. rewrite <- app_assoc. simpl.
    by replace (index + 1 + length clicks)%nat with (index + S (length clicks))%nat by lia.
Qed.

(** The answer to the last question runs the completion on all answers. *)
Lemma showQuestion_completes (total : nat) (clicks : list Z) (index : nat)
    (answers : list Z) (now1 now2 : Z) (w : browser) :
  clicks ≠ [] → (index + length clicks = total)%nat →
  QuizBlock.showQuestion total clicks index answers now1 now2 w
  = map_result (λ w', ((answers ++ clicks)%list, QuizBlock.Completed, w'))
      (QuizBlock.completeQuiz (answers ++ clicks) now1 now2 w).
Proof.
  revert index answers. induction clicks as [|optIdx clicks IH]; intros index answers Hne Hlen;
    [done|].
  simpl in *. unfold QuizBlock.onAnswer. destruct clicks as [|optIdx' clicks].
  - rewrite bool_decide_eq_false_2 by (simpl in Hlen; lia).
    unfold map_result. cbn [bind].
    by destruct (QuizBlock.completeQuiz (answers ++ [optIdx]) now1 now2 w).
  - rewrite bool_decide_eq_true_2 by (simpl in Hlen; lia). cbn [bind].
    rewrite IH; [|done|simpl in *; lia]. by rewrite <- app_assoc.
Qed.

(** X9: the persona quiz persists nothing while questions remain: after
    fewer answers than questions the browser state is untouched.  The
    answer to the last question classifies all the answers, writes the
    two records and redirects to the experience page of the tag; a block
    without questions does nothing. *)
Theorem quiz_persists_on_completion_only
    (total : nat) (clicks : list Z) (now1 now2 : Z) (w : browser) :
  ((length clicks < total)%nat →
   QuizBlock.decorate total clicks now1 now2 w
   = Returns (Some (clicks, QuizBlock.ShowQuestion (length clicks), w)))
  ∧ ((0 < total)%nat → length clicks = total →
     ∃ tag,
       tag ∈ PERSONAS
       ∧ calculatePersona clicks = Returns (TagStr tag)
       ∧ getResultPage (TagStr tag) ∈ experience_urls
       ∧ QuizBlock.decorate total clicks now1 now2 w
         = Returns (Some (clicks, QuizBlock.Completed,
             Browser
               (cookie_writes w ++
                  [ CookieWrite "arco_persona" tag (now1 + days 90) "/" "Lax";
                    CookieWrite "arco-brew-style" tag (now2 + days 30) "/" "Lax" ])
               (Some (getResultPage (TagStr tag))))))
  ∧ (total = 0%nat → QuizBlock.decorate total clicks now1 now2 w = Returns None).
Proof.
  unfold QuizBlock.decorate. split; [|split].
  - intros Hlt. destruct (decide (total = 0%nat)); [lia|].
    by rewrite showQuestion_waits by (simpl; lia).
  - intros Hpos Hlen. destruct (decide (total = 0%nat)); [lia|].
    destruct (completeQuiz_writes clicks now1 now2 w) as (tag & Htag & Hrun & Hdone).
    exists tag. split; [done|]. split; [done|].
    split; [by apply getResultPage_persona|].
    rewrite showQuestion_completes; [|by intros ->; simpl in *; lia|simpl; lia].
    simpl. by rewrite Hdone.
  - intros ->. done.
Qed.

(** ** The brew-style quiz *)

Lemma pretty_N_char_digit (x : N) : is_digit (pretty_N_char x) = true.
Proof. unfold pretty_N_char. by repeat case_match. Qed.

Lemma pretty_N_go_digits (x : N) (s : string) : digits s → digits (pretty_N_go x s).
Proof.
  revert s. induction (N.lt_wf_0 x) as [x _ IH]; intros s Hs.
  destruct (decide (x = 0)%N) as [->|Hx]; [by rewrite pretty_N_go_0|].
  rewrite pretty_N_go_step by lia. apply IH; [apply N.div_lt; lia|].
  constructor; [apply pretty_N_char_digit | exact Hs].
Qed.

Lemma pretty_N_go_length (x : N) (s : string) :
  (String.length s ≤ String.length (pretty_N_go x s))%nat.
Proof.
  revert s. induction (N.lt_wf_0 x) as [x _ IH]; intros s.
  destruct (decide (x = 0)%N) as [->|Hx]; [by rewrite pretty_N_go_0|].
  rewrite pretty_N_go_step by lia.
  etrans; [|apply IH; apply N.div_lt; lia]. simpl. lia.
Qed.

(** A positive number prints as a digit followed by digits. *)
Lemma pretty_positive_shape (p : positive) :
  ∃ c rest, pretty (Z.pos p) = String c rest ∧ is_digit c = true ∧ digits rest.
Proof.
  change (pretty (Z.pos p)) with (pretty_N_go (N.pos p) EmptyString).
  pose proof (pretty_N_go_digits (N.pos p) EmptyString ltac:(constructor)) as Hd.
  assert (Hlen : (1 ≤ String.length (pretty_N_go (N.pos p) EmptyString))%nat).
  { rewrite pretty_N_go_step by lia. etrans; [|apply pretty_N_go_length]. simpl. lia. }
  destruct (pretty_N_go (N.pos p) EmptyString) as [|c rest]; [simpl in Hlen; lia|].
  exists c, rest. split; [done|]. unfold digits in Hd. simpl in Hd.
  by apply Forall_cons in Hd as [? ?].
Qed.

(** An integer prints as a digit or a minus sign, then digits only. *)
Lemma pretty_Z_shape (z : Z) :
  ∃ c rest, pretty z = String c rest
            ∧ (is_digit c = true ∨ c = "-"%char) ∧ digits rest
            ∧ (is_digit c = true → 0 ≤ z).
Proof.
  destruct z as [|p|p].
  - exists "0"%char, EmptyString.
    split; [reflexivity|]. split; [by left|]. split; [constructor | done].
  - destruct (pretty_positive_shape p) as (c & rest & Hp & Hc & Hrest).
    exists c, rest. split; [done|]. split; [by left|]. split; [done | lia].
  - destruct (pretty_positive_shape p) as (c & rest & Hp & Hc & Hrest).
    exists "-"%char, (String c rest). split.
    { change (pretty (Z.neg p)) with ("-" +:+ pretty (Z.pos p)). by rewrite Hp. }
    split; [by right|]. split; [by constructor | discriminate].
Qed.

Lemma join_cons (x : Z) (rest : list Z) :
  join "-" (x :: rest)
  = match rest with
    | [] => pretty x
    | _ :: _ => pretty x +:+ "-" +:+ join "-" rest
    end.
Proof. unfold join. by destruct rest. Qed.

(** A key built from answers never names a member of [Object.prototype]:
    it is empty or starts with a digit or a minus sign. *)
Lemma join_not_inherited (answers : list Z) : Object_prototype (join "-" answers) = None.
Proof.
  destruct answers as [|x rest]; [reflexivity|]. rewrite join_cons.
  destruct (pretty_Z_shape x) as (c & r & -> & Hc & _).
  assert (Hhead : ∃ tail, (match rest with
                           | [] => String c r
                           | _ :: _ => String c r +:+ "-" +:+ join "-" rest
                           end) = String c tail) by (destruct rest; by eexists).
  destruct Hhead as [tail ->].
  assert (Hcases : c ∈ list_ascii_of_string "0123456789-").
  { destruct Hc as [Hc| ->]; [|by_evaluation].
    assert (H : implb (is_digit c)
                  (bool_decide (c ∈ list_ascii_of_string "0123456789-")) = true)
      by (each_ascii c; vm_compute; reflexivity).
    rewrite Hc in H. by apply bool_decide_eq_true in H. }
  simpl in Hcases. unfold Object_prototype, Object_prototype_methods.
  list_cases Hcases; subst c;
    repeat (case_decide as H; [first [discriminate H | by list_cases H]|]); done.
Qed.

Lemma mapping_values (key tag : string) :
  BrewStyleQuiz.mapping !! key = Some tag →
  tag ∈ BrewStyleQuiz.EXPERIENCE_TAGS ∧ String.eqb tag EmptyString = false.
Proof.
  intros H. apply elem_of_list_to_map_2 in H.
  list_cases H; simplify_eq; (split; [by_evaluation | reflexivity]).
Qed.

Lemma count_answer_length (a : Z) (i : nat) (counts : list Z) :
  length (BrewStyleQuiz.count_answer a i counts) = length counts.
Proof.
  unfold BrewStyleQuiz.count_answer.
  destruct (_ && _); [apply length_alter | done].
Qed.

(** The fallback picks one of the first four tags. *)
Lemma dominant_tag_first_four (answers : list Z) :
  ∃ tag, BrewStyleQuiz.dominant_tag answers = StrText tag
         ∧ tag ∈ take 4 BrewStyleQuiz.EXPERIENCE_TAGS.
Proof.
  unfold BrewStyleQuiz.dominant_tag.
  assert (Hlen : length (forEach BrewStyleQuiz.count_answer answers [0; 0; 0; 0]) = 4%nat).
  { unfold forEach. apply forEach_from_invariant; [|done].
    intros a j counts _ Hcounts. by rewrite count_answer_length. }
  destruct (indexOf _ _) as [i|] eqn:Hindex; simpl.
  - assert (Hi : (i < 4)%nat).
    { unfold indexOf in Hindex. destruct (Math_max _) as [m|]; [|done]. simpl in Hindex.
      apply fmap_Some in Hindex as ([j x] & Hfind & ->).
      apply list_find_Some in Hfind as (Hlookup & _).
      apply lookup_lt_Some in Hlookup. simpl. lia. }
    destruct i as [|[|[|[|i]]]]; [| | | |lia]; simpl; eexists; (split; [reflexivity|]);
      by_evaluation.
  - eexists. split; [reflexivity | by_evaluation].
Qed.

Lemma resolveExperience_tag (answers : list Z) :
  ∃ tag, BrewStyleQuiz.resolveExperience answers = StrText tag
         ∧ tag ∈ BrewStyleQuiz.EXPERIENCE_TAGS.
Proof.
  unfold BrewStyleQuiz.resolveExperience, get. rewrite join_not_inherited.
  destruct (BrewStyleQuiz.mapping !! join "-" answers) as [tag|] eqn:Hkey.
  - destruct (mapping_values _ _ Hkey) as [Htag ->]. by exists tag.
  - destruct (dominant_tag_first_four answers) as (tag & -> & Htag).
    exists tag. split; [done|]. simpl in Htag. list_cases Htag; subst; by_evaluation.
Qed.


Lemma digits_head (c : ascii) (rest : string) : digits (String c rest) → is_digit c = true.
Proof. unfold digits. simpl. intros H. by apply Forall_cons in H as [? _]. Qed.

(** A number in front of a digit and a separator is that digit. *)
Lemma head_number (x : Z) (tail : string) (d : ascii) (more : string) :
  pretty x +:+ tail = String d (String "-" more) →
  pretty x = String d EmptyString ∧ tail = String "-" more.
Proof.
  destruct (pretty_Z_shape x) as (c & r & -> & _ & Hr & _). simpl.
  intros [= -> Hrest]. destruct r as [|c' r]; [done|].
  simpl in Hrest. injection Hrest as -> _. by apply digits_head in Hr.
Qed.

Lemma whole_number (x : Z) (d : ascii) (more : string) :
  pretty x ≠ String d (String "-" more).
Proof.
  destruct (pretty_Z_shape x) as (c & r & -> & _ & Hr & _).
  intros [= -> ->]. by apply digits_head in Hr.
Qed.

Lemma key_of_three (answers : list Z) (d1 d2 d3 : ascii) :
  join "-" answers
  = String d1 (String "-" (String d2 (String "-" (String d3 EmptyString)))) →
  ∃ x y z, answers = [x; y; z]
           ∧ pretty x = String d1 EmptyString
           ∧ pretty y = String d2 EmptyString
           ∧ pretty z = String d3 EmptyString.
Proof.
  destruct answers as [|x rest]; [done|]. rewrite join_cons.
  destruct rest as [|y rest]; intros H.
  { by apply whole_number in H. }
  apply head_number in H as [Hx H]. injection H as H. rewrite join_cons in H.
  destruct rest as [|z rest].
  { by apply whole_number in H. }
  apply head_number in H as [Hy H]. injection H as H. rewrite join_cons in H.
  destruct rest as [|u rest].
  { by exists x, y, z. }
  destruct (pretty_Z_shape z) as (c & r & Hz & _). rewrite Hz in H. simpl in H.
  injection H as _ H. by destruct r.
Qed.

Lemma pretty_digit_inv (x : Z) (d : ascii) :
  is_digit d = true → pretty x = String d EmptyString →
  x = Z.of_N (N_of_ascii d) - 48.
Proof.
  intros Hd Hx.
  assert (H : implb (is_digit d)
                (String.eqb (pretty (Z.of_N (N_of_ascii d) - 48)) (String d EmptyString))
              = true) by (each_ascii d; vm_compute; reflexivity).
  rewrite Hd in H. simpl in H. apply String.eqb_eq in H.
  apply (inj pretty). by rewrite H.
Qed.

(** Only three answers, each among the first four options, hit the table. *)
Lemma mapping_key (answers : list Z) (tag : string) :
  BrewStyleQuiz.mapping !! join "-" answers = Some tag →
  ∃ x y z, answers = [x; y; z] ∧ 0 ≤ x ≤ 3 ∧ 0 ≤ y ≤ 3 ∧ 0 ≤ z ≤ 3.
Proof.
  intros H. apply elem_of_list_to_map_2 in H.
  list_cases H;
    (injection H as Hkey _;
     apply key_of_three in Hkey as (x & y & z & -> & Hx & Hy & Hz);
     (apply pretty_digit_inv in Hx; [|reflexivity]);
     (apply pretty_digit_inv in Hy; [|reflexivity]);
     (apply pretty_digit_inv in Hz; [|reflexivity]);
     exists x, y, z; (split; [done|]); subst; vm_compute; intuition discriminate).
Qed.

(** X11: the brew-style quiz yields [the-non-barista] only for exactly
    three answers among the first four options, one of them option 3; a
    quiz with another number of questions falls back to the most
    frequent answer and never reaches that tag. *)
Theorem the_non_barista_needs_three_answers (answers : list Z) :
  BrewStyleQuiz.resolveExperience answers = StrText "the-non-barista" →
  ∃ x y z, answers = [x; y; z] ∧ 0 ≤ x ≤ 3 ∧ 0 ≤ y ≤ 3 ∧ 0 ≤ z ≤ 3 ∧ 3 ∈ answers.
Proof.
  unfold BrewStyleQuiz.resolveExperience, get. rewrite join_not_inherited.
  destruct (BrewStyleQuiz.mapping !! join "-" answers) as [tag|] eqn:Hkey.
  - destruct (mapping_values _ _ Hkey) as [_ ->]. intros [= ->].
    destruct (mapping_key _ _ Hkey) as (x & y & z & -> & Hx & Hy & Hz).
    exists x, y, z. do 4 (split; [done|]).
    assert (Hxs : x = 0 ∨ x = 1 ∨ x = 2 ∨ x = 3) by lia.
    assert (Hys : y = 0 ∨ y = 1 ∨ y = 2 ∨ y = 3) by lia.
    assert (Hzs : z = 0 ∨ z = 1 ∨ z = 2 ∨ z = 3) by lia.
    clear Hx Hy Hz.
    destruct Hxs as [->|[->|[->| ->]]], Hys as [->|[->|[->| ->]]],
      Hzs as [->|[->|[->| ->]]];
      first [by_evaluation | vm_compute in Hkey; discriminate Hkey].
  - destruct (dominant_tag_first_four answers) as (tag & -> & Htag).
    intros [= ->]. simpl in Htag. list_cases Htag; discriminate.
Qed.

Lemma the_non_barista_needs_three_answers_witness :
  ∃ x y z, [3; 0; 0] = [x; y; z] ∧ 0 ≤ x ≤ 3 ∧ 0 ≤ y ≤ 3 ∧ 0 ≤ z ≤ 3 ∧ 3 ∈ [3; 0; 0].
Proof. apply (the_non_barista_needs_three_answers [3; 0; 0]). reflexivity. Defined.

Lemma brew_showQuestion_waits (total : nat) (clicks : list Z) (index : nat)
    (answers : list Z) (now : Z) (w : browser) :
  (index + length clicks < total)%nat →
  BrewStyleQuiz.showQuestion total clicks index answers now w = ((answers ++ clicks)%list, w).
Proof.
  revert index answers. induction clicks as [|optIdx clicks IH]; intros index answers Hlt.
  - simpl. by rewrite app_nil_r.
  - simpl in *. rewrite bool_decide_eq_true_2 by lia.
    rewrite IH by lia. by rewrite <- app_assoc.
Qed.

Lemma brew_showQuestion_completes (total : nat) (clicks : list Z) (index : nat)
    (answers : list Z) (now : Z) (w : browser) :
  clicks ≠ [] → (index + length clicks = total)%nat →
  BrewStyleQuiz.showQuestion total clicks index answers now w
  = ((answers ++ clicks)%list, BrewStyleQuiz.completeQuiz (answers ++ clicks) now w).
Proof.
  revert index answers. induction clicks as [|optIdx clicks IH]; intros index answers Hne Hlen;
    [done|].
  simpl in *. destruct clicks as [|optIdx' clicks].
  - by rewrite bool_decide_eq_false_2 by (simpl in Hlen; lia).
  - rewrite bool_decide_eq_true_2 by (simpl in Hlen; lia).
    rewrite IH; [|done|simpl in *; lia]. by rewrite <- app_assoc.
Qed.

(** X12: the brew-style quiz writes nothing while questions remain; the
    answer to the last question stores one of the five experience tags,
    unchanged by the encoding, under [arco-brew-style] for 30 days and
    redirects to the page of that tag under [/experiences/]. *)
Theorem brew_style_quiz_stores_experience_tag
    (total : nat) (clicks : list Z) (now : Z) (w : browser) :
  ((length clicks < total)%nat → BrewStyleQuiz.decorate total clicks now w = (clicks, w))
  ∧ ((0 < total)%nat → length clicks = total →
     ∃ tag,
       tag ∈ BrewStyleQuiz.EXPERIENCE_TAGS
       ∧ BrewStyleQuiz.resolveExperience clicks = StrText tag
       ∧ BrewStyleQuiz.decorate total clicks now w
         = (clicks,
            Browser
              (cookie_writes w ++
                 [ CookieWrite "arco-brew-style" tag (now + days 30) "/" "Lax" ])
              (Some ("/experiences/" +:+ tag))))
  ∧ (total = 0%nat → BrewStyleQuiz.decorate total clicks now w = ([], w)).
Proof.
  unfold BrewStyleQuiz.decorate. split; [|split].
  - intros Hlt. destruct (decide (total = 0%nat)); [lia|].
    by rewrite brew_showQuestion_waits by (simpl; lia).
  - intros Hpos Hlen. destruct (decide (total = 0%nat)); [lia|].
    destruct (resolveExperience_tag clicks) as (tag & Hrun & Htag).
    exists tag. split; [done|]. split; [done|].
    rewrite brew_showQuestion_completes; [|by intros ->; simpl in *; lia|simpl; lia].
    simpl. unfold BrewStyleQuiz.completeQuiz, BrewStyleQuiz.setCookie. rewrite Hrun.
    cbn [strval_to_string cookie_writes location_href].
    replace (encodeURIComponent tag) with tag; [done|].
    list_cases Htag; by subst.
  - intros ->. done.
Qed.

(** ** The registry and the page composition, further *)

Lemma getResultPage_ordinary_witness :
  getResultPage (TagStr "espresso-lover") ∈ experience_urls
  ∧ (tag_to_string (TagStr "espresso-lover") ∉ PERSONAS →
     getResultPage (TagStr "espresso-lover") = "/experiences/core/morning-minimalist").
Proof. apply (getResultPage_ordinary (TagStr "espresso-lover")). reflexivity. Defined.

Lemma variant_defaults_witness :
  (HERO_VARIANTS !! tag_to_string TagNull = None →
   Some (getHeroVariant TagNull) = HERO_VARIANTS !! "default")
  ∧ (EXPERIENCE_CTAS !! tag_to_string TagNull = None →
     Some (getExperienceCTA TagNull) = EXPERIENCE_CTAS !! "default")
  ∧ (overrides !! tag_to_string TagNull = None →
     getNavigationOverride TagNull
     = object [ ("promote", VArr []); ("demote", VArr []); ("cta", VNull) ]).
Proof. apply (variant_defaults TagNull). reflexivity. Defined.

Lemma composePage_homepage_frame_witness :
  ∃ assembled,
    composePage "homepage" TagNull {[ "title" := VStr "Arco" ]}
      "arco_persona=traveller" "2026-01-01T00:00:00.000Z"
    = Returns assembled
    ∧ assembled !! "hero" = Some (getHeroVariant (TagStr "traveller"))
    ∧ assembled !! "title" = Some (VStr "Arco")
    ∧ assembled !! "_persona" = Some (VStr "traveller").
Proof.
  destruct (composePage_homepage_frame TagNull {[ "title" := VStr "Arco" ]}
              "arco_persona=traveller" "2026-01-01T00:00:00.000Z" (TagStr "traveller"))
    as (assembled & Hrun & Hhero & _ & _ & _ & _ & Hpersona & _ & Hframe);
    [reflexivity | reflexivity |].
  exists assembled. split; [exact Hrun|]. split; [exact Hhero|]. split; [|exact Hpersona].
  rewrite Hframe; [reflexivity | by_evaluation | by_evaluation].
Defined.

Lemma list_table_entries (table : gmap string (list string)) (n : nat) :
  map_Forall (λ _ entry, length entry = n ∧ NoDup entry) table →
  ∀ personaTag, table !! "default" ≠ None →
    length (persona_list table personaTag) = n ∧ NoDup (persona_list table personaTag).
Proof.
  intros Hall personaTag Hdefault. unfold persona_list.
  destruct (table !! tag_to_string personaTag) as [entry|] eqn:Hentry.
  - by apply (Hall _ _ Hentry).
  - destruct (table !! "default") as [entry|] eqn:Hentry'; [|done].
    by apply (Hall _ _ Hentry').
Qed.

Lemma PRODUCT_RECS_entries :
  map_Forall (λ _ entry, length entry = 6%nat ∧ NoDup entry) PRODUCT_RECS.
Proof.
  intros k entry H. apply elem_of_list_to_map_2 in H.
  list_cases H; simplify_eq; (split; [reflexivity | by_evaluation]).
Qed.

Lemma BLOG_FEEDS_entries :
  map_Forall (λ _ entry, length entry = 3%nat ∧ NoDup entry) BLOG_FEEDS.
Proof.
  intros k entry H. apply elem_of_list_to_map_2 in H.
  list_cases H; simplify_eq; (split; [reflexivity | by_evaluation]).
Qed.

(** X13: called without a limit, for a tag that is no member name of
    [Object.prototype], the recommendations are the first three products
    of the persona's list of six and the feed is the persona's whole list
    of three posts; neither repeats an entry. *)
Theorem list_tables_default_limit (personaTag : tagval) :
  Object_prototype (tag_to_string personaTag) = None →
  ∃ products posts,
    getProductRecommendations personaTag None = Returns products
    ∧ products = take 3 (persona_list PRODUCT_RECS personaTag)
    ∧ length products = 3%nat ∧ NoDup products
    ∧ getBlogFeed personaTag None = Returns posts
    ∧ posts = persona_list BLOG_FEEDS personaTag
    ∧ length posts = 3%nat ∧ NoDup posts.
Proof.
  intros Hproto.
  destruct (list_table_entries PRODUCT_RECS 6 PRODUCT_RECS_entries personaTag ltac:(done))
    as [Hlen Hnodup].
  destruct (list_table_entries BLOG_FEEDS 3 BLOG_FEEDS_entries personaTag ltac:(done))
    as [Hlen' Hnodup'].
  exists (take 3 (persona_list PRODUCT_RECS personaTag)), (persona_list BLOG_FEEDS personaTag).
  split.
  { unfold getProductRecommendations. simpl default.
    erewrite list_or_default_ordinary; [|done|reflexivity]. simpl.
    rewrite slice0_nonneg by lia. do 2 f_equal. lia. }
  split; [done|]. split; [rewrite length_take; lia|]. split; [eapply sublist_NoDup; [exact Hnodup | apply sublist_take]|].
  split.
  { unfold getBlogFeed. simpl default.
    erewrite list_or_default_ordinary; [|done|reflexivity]. simpl.
    rewrite slice0_nonneg by lia. f_equal. apply take_ge. lia. }
  done.
Qed.

Lemma list_tables_default_limit_witness :
  ∃ products posts,
    getProductRecommendations TagUndefined None = Returns products
    ∧ products = take 3 (persona_list PRODUCT_RECS TagUndefined)
    ∧ length products = 3%nat ∧ NoDup products
    ∧ getBlogFeed TagUndefined None = Returns posts
    ∧ posts = persona_list BLOG_FEEDS TagUndefined
    ∧ length posts = 3%nat ∧ NoDup posts.
Proof. apply (list_tables_default_limit TagUndefined). reflexivity. Defined.

Lemma stamp_union (assembled : gmap string value) (persona : tagval) (isoNow : string) :
  <["_assembled_at" := VStr isoNow]> (<["_persona" := tag_value persona]> assembled)
  = stamp persona isoNow ∪ assembled.
Proof. unfold stamp. by rewrite <- !insert_union_l, (left_id_L ∅ (∪)). Qed.

Lemma stamp_domain (p1 p2 : tagval) (now1 now2 k : string) :
  stamp p2 now2 !! k = None → stamp p1 now1 !! k = None.
Proof.
  unfold stamp. rewrite !lookup_insert. repeat case_decide; by rewrite ?lookup_empty.
Qed.

(** The homepage branch lays the same five fields over any base. *)
Lemma assemble_homepage_union (persona : tagval) (base : gmap string value) :
  assemble_homepage persona base
  = map_result (λ fields, fields ∪ base) (assemble_homepage persona ∅).
Proof.
  unfold assemble_homepage.
  destruct (getProductRecommendations persona (Some 3)) as [products|e]; [|done].
  destruct (getBlogFeed persona (Some 3)) as [feed|e]; [|done].
  simpl. by rewrite <- !insert_union_l, (left_id_L ∅ (∪)).
Qed.

(** Laying the same fields and a fresh stamp over a stamped overlay gives
    what laying them over the base gives. *)
Lemma overlay_again (s1 s2 fields base : gmap string value) :
  (∀ k, s2 !! k = None → s1 !! k = None) →
  s2 ∪ (fields ∪ (s1 ∪ (fields ∪ base))) = s2 ∪ (fields ∪ base).
Proof.
  intros Hdom. apply map_eq. intros k. rewrite !lookup_union.
  specialize (Hdom k).
  destruct (s2 !! k); [by destruct (fields !! k), (s1 !! k), (base !! k)|].
  rewrite Hdom by done. by destruct (fields !! k), (base !! k).
Qed.

(** X14: assembling an assembled page once more, with the same tag and
    cookie, changes nothing but the timestamp: on every page type other
    than the product page the second result is what a single call at the
    later time returns, and a call that throws throws both times. *)
Theorem composePage_reassemble
    (pageType : string) (personaTag : tagval) (base : gmap string value)
    (cookie now1 now2 : string) :
  pageType ≠ "pdp" →
  reassemble pageType personaTag base cookie now1 now2
  = composePage pageType personaTag base cookie now2.
Proof.
  intros Hpdp. unfold reassemble, composePage.
  destruct (if tag_truthy personaTag then Returns personaTag
            else getPersonaFromCookie cookie) as [persona|err]; [|done].
  cbn [bind]. destruct (decide (pageType = "pdp")) as [?|_]; [done|].
  destruct (decide (pageType = "homepage")) as [Hhome|Hhome].
  - rewrite (assemble_homepage_union persona base).
    destruct (assemble_homepage persona ∅) as [fields|err] eqn:Hfields; [|done].
    cbn [map_result bind]. rewrite !stamp_union, assemble_homepage_union, Hfields.
    cbn [map_result bind]. rewrite !stamp_union. f_equal.
    apply overlay_again, stamp_domain.
  - cbn [bind]. rewrite !stamp_union. f_equal.
    rewrite <- (left_id_L ∅ (∪) (stamp persona now1 ∪ base)).
    rewrite <- (left_id_L ∅ (∪) base) at 1 2.
    rewrite overlay_again by apply stamp_domain. by rewrite !(left_id_L ∅ (∪)).
Qed.

Lemma composePage_reassemble_witness :
  reassemble "homepage" (TagStr "upgrader") {[ "title" := VStr "Arco" ]} EmptyString
    "2026-01-01T00:00:00.000Z" "2026-01-02T00:00:00.000Z"
  = composePage "homepage" (TagStr "upgrader") {[ "title" := VStr "Arco" ]} EmptyString
      "2026-01-02T00:00:00.000Z".
Proof.
  apply (composePage_reassemble "homepage" (TagStr "upgrader") {[ "title" := VStr "Arco" ]}
           EmptyString "2026-01-01T00:00:00.000Z" "2026-01-02T00:00:00.000Z").
  discriminate.
Defined.

Lemma Object_assign_union (target source : gmap string value) :
  Object_assign target source
  = (if decide (is_Some (target !! "__proto__")) then source
     else delete "__proto__" source) ∪ target.
Proof. reflexivity. Qed.

(** X15: on the product page, re-assembling an assembled page changes
    nothing but the timestamp, provided the override applied does not
    itself replace the override map. *)
Theorem composePage_pdp_reassemble
    (tag : string) (base overrides override : gmap string value)
    (cookie now1 now2 : string) :
  tag ≠ EmptyString →
  base !! "persona_overrides" = Some (VObj overrides) →
  overrides !! tag = Some (VObj override) →
  override !! "persona_overrides" = None →
  reassemble "pdp" (TagStr tag) base cookie now1 now2
  = composePage "pdp" (TagStr tag) base cookie now2.
Proof.
  intros Htag Hbase Hoverride Hkeep.
  assert (Htruthy : tag_truthy (TagStr tag) = true).
  { simpl. apply negb_true_iff. by apply String.eqb_neq. }
  set (layer := if decide (is_Some (base !! "__proto__")) then override
                else delete "__proto__" override).
  assert (Hlayer : layer !! "persona_overrides" = None).
  { unfold layer. case_decide; [done|]. by rewrite lookup_delete_ne. }
  assert (Hfirst : ∀ now, composePage "pdp" (TagStr tag) base cookie now
                          = Returns (stamp (TagStr tag) now ∪ (layer ∪ base))).
  { intros now. unfold composePage. rewrite Htruthy. cbn [bind].
    destruct (decide ("pdp" = "homepage")) as [?|_]; [done|]. cbn [bind].
    destruct (decide ("pdp" = "pdp")) as [_|?]; [|done].
    unfold assemble_pdp, persona_override. rewrite Htruthy, Hbase.
    cbn [tag_to_string own_property]. rewrite Hoverride. cbn [truthy own_enumerable].
    by rewrite stamp_union, Object_assign_union. }
  unfold reassemble. rewrite !Hfirst. cbn [bind].
  set (first := stamp (TagStr tag) now1 ∪ (layer ∪ base)).
  assert (Hmap : first !! "persona_overrides" = Some (VObj overrides)).
  { unfold first. rewrite !lookup_union, Hlayer, Hbase. by vm_compute. }
  assert (Hproto : is_Some (first !! "__proto__") ↔ is_Some (base !! "__proto__")).
  { unfold first, layer. rewrite !lookup_union.
    replace (stamp (TagStr tag) now1 !! "__proto__") with (@None value) by done.
    case_decide as Hb.
    - destruct Hb as [v ->]. split; [by eexists|]. by destruct (override !! "__proto__").
    - rewrite lookup_delete_eq. by destruct (base !! "__proto__"). }
  unfold composePage. rewrite Htruthy. cbn [bind].
  destruct (decide ("pdp" = "homepage")) as [?|_]; [done|]. cbn [bind].
  destruct (decide ("pdp" = "pdp")) as [_|?]; [|done].
  unfold assemble_pdp, persona_override. rewrite Htruthy, Hmap.
  cbn [tag_to_string own_property]. rewrite Hoverride. cbn [truthy own_enumerable].
  rewrite stamp_union, Object_assign_union. f_equal.
  replace (if decide (is_Some (first !! "__proto__")) then override
           else delete "__proto__" override) with layer.
  - apply overlay_again, stamp_domain.
  - unfold layer. by do 2 case_decide; tauto.
Qed.

Lemma composePage_pdp_reassemble_witness :
  let base : gmap string value :=
    list_to_map [ ("persona_overrides", object [ ("upgrader", object [ ("price", VNum 10) ]) ]);
                  ("price", VNum 20) ] in
  reassemble "pdp" (TagStr "upgrader") base EmptyString
    "2026-01-01T00:00:00.000Z" "2026-01-02T00:00:00.000Z"
  = composePage "pdp" (TagStr "upgrader") base EmptyString "2026-01-02T00:00:00.000Z".
Proof.
  intros base.
  apply (composePage_pdp_reassemble "upgrader" base
           (list_to_map [ ("upgrader", object [ ("price", VNum 10) ]) ])
           (list_to_map [ ("price", VNum 10) ])); [done | reflexivity..].
Defined.

(** X16: a page other than the homepage passes the base content through
    with only the stamp added, and so does a product page whose base
    content has no override map. *)
Theorem composePage_passes_through
    (pageType : string) (personaTag : tagval) (base : gmap string value)
    (cookie isoNow : string) (persona : tagval) :
  pageType ≠ "homepage" →
  (pageType = "pdp" → base !! "persona_overrides" = None) →
  effective_persona personaTag cookie = Returns persona →
  composePage pageType personaTag base cookie isoNow
  = Returns (<["_assembled_at" := VStr isoNow]> (<["_persona" := tag_value persona]> base)).
Proof.
  intros Hhome Hpdp Hpersona. unfold composePage.
  fold (effective_persona personaTag cookie). rewrite Hpersona. cbn [bind].
  destruct (decide (pageType = "homepage")) as [?|_]; [done|]. cbn [bind].
  destruct (decide (pageType = "pdp")) as [Hp|_]; [|done].
  unfold assemble_pdp, persona_override. rewrite (Hpdp Hp). by destruct (tag_truthy persona).
Qed.

Lemma composePage_passes_through_witness :
  composePage "guide" TagNull {[ "title" := VStr "Tamping" ]} "arco_persona=traveller"
    "2026-01-01T00:00:00.000Z"
  = Returns (<["_assembled_at" := VStr "2026-01-01T00:00:00.000Z"]>
               (<["_persona" := tag_value (TagStr "traveller")]> {[ "title" := VStr "Tamping" ]})).
Proof.
  apply (composePage_passes_through "guide" TagNull {[ "title" := VStr "Tamping" ]}
           "arco_persona=traveller" "2026-01-01T00:00:00.000Z" (TagStr "traveller")).
  - discriminate.
  - discriminate.
  - reflexivity.
Defined.

(** X17: whatever the base content and the override hold under
    [_persona] and [_assembled_at], a call that returns reports the
    persona it worked with (the explicit tag when truthy, else what the
    cookie holds) and the clock reading of the call. *)
Theorem composePage_stamp_is_authoritative
    (pageType : string) (personaTag : tagval) (base : gmap string value)
    (cookie isoNow : string) (assembled : gmap string value) :
  composePage pageType personaTag base cookie isoNow = Returns assembled →
  ∃ persona,
    effective_persona personaTag cookie = Returns persona
    ∧ (tag_truthy personaTag = true → persona = personaTag)
    ∧ assembled !! "_persona" = Some (tag_value persona)
    ∧ assembled !! "_assembled_at" = Some (VStr isoNow).
Proof.
  destruct (composePage_stamp pageType personaTag base cookie) as (r & Hr & Hdef).
  rewrite Hr. intros Hrun.
  destruct (effective_persona personaTag cookie) as [persona|e] eqn:Hpersona;
    [|by subst r].
  exists persona. split; [done|]. split.
  { intros Htruthy. unfold effective_persona in Hpersona. rewrite Htruthy in Hpersona.
    by injection Hpersona. }
  cbn [bind] in Hdef.
  destruct (if decide (pageType = "homepage") then assemble_homepage persona base
            else Returns base) as [a|e]; [|by subst r].
  subst r. cbn [map_result bind] in Hrun. injection Hrun as <-.
  split; by simplify_map_eq.
Qed.

Lemma composePage_stamp_is_authoritative_witness :
  ∃ persona,
    effective_persona (TagStr "upgrader") EmptyString = Returns persona
    ∧ (tag_truthy (TagStr "upgrader") = true → persona = TagStr "upgrader")
    ∧ (<["_assembled_at" := VStr "2026-01-01T00:00:00.000Z"]>
         (<["_persona" := VStr "upgrader"]> {[ "_persona" := VStr "guest" ]})
       : gmap string value) !! "_persona" = Some (tag_value persona)
    ∧ (<["_assembled_at" := VStr "2026-01-01T00:00:00.000Z"]>
         (<["_persona" := VStr "upgrader"]> {[ "_persona" := VStr "guest" ]})
       : gmap string value) !! "_assembled_at" = Some (VStr "2026-01-01T00:00:00.000Z").
Proof.
  apply (composePage_stamp_is_authoritative "guide" (TagStr "upgrader")
           {[ "_persona" := VStr "guest" ]} EmptyString "2026-01-01T00:00:00.000Z").
  reflexivity.
Defined.

(** ** What makes a composition fail *)









(** ** From the quiz to the homepage *)

(** X19: the registries of the assembly engine cover the taxonomy of the
    quiz.  Whatever the answers, the tag the classifier returns has an
    entry of its own in each of the five tables, so the homepage composed
    for it returns, never throws and never falls back to a default
    entry. *)
Theorem classified_persona_has_own_homepage
    (answers : list Z) (base : gmap string value) (cookie isoNow : string) :
  ∃ tag assembled,
    calculatePersona answers = Returns (TagStr tag)
    ∧ composePage "homepage" (TagStr tag) base cookie isoNow = Returns assembled
    ∧ assembled !! "hero" = HERO_VARIANTS !! tag
    ∧ assembled !! "products"
      = (λ entry, strings_value (take 3 entry)) <$> PRODUCT_RECS !! tag
    ∧ assembled !! "blog_feed" = strings_value <$> BLOG_FEEDS !! tag
    ∧ assembled !! "experience_cta" = EXPERIENCE_CTAS !! tag
    ∧ assembled !! "nav_override" = overrides !! tag
    ∧ assembled !! "_persona" = Some (VStr tag).
Proof.
  destruct (calculatePersona_returns_tag answers) as (tag & Hclass & Htag).
  exists tag.
  assert (Hproto : Object_prototype (tag_to_string (TagStr tag)) = None).
  { list_cases Htag; subst tag; reflexivity. }
  assert (Htruthy : tag_truthy (TagStr tag) = true).
  { list_cases Htag; subst tag; reflexivity. }
  destruct (assemble_homepage_ordinary (TagStr tag) base Hproto)
    as (a & Ha & Hhero & Hproducts & Hfeed & Hcta & Hnav & _).
  exists (<["_assembled_at" := VStr isoNow]> (<["_persona" := VStr tag]> a)).
  split; [done|]. split.
  { unfold composePage. rewrite Htruthy. cbn [bind].
    destruct (decide ("homepage" = "homepage")) as [_|?]; [|done].
    rewrite Ha. cbn [bind].
    destruct (decide ("homepage" = "pdp")) as [?|_]; [discriminate|]. reflexivity. }
  assert (Hframe : ∀ k, k ≠ "_assembled_at" → k ≠ "_persona" →
            <["_assembled_at" := VStr isoNow]> (<["_persona" := VStr tag]> a) !! k = a !! k).
  { intros k H1 H2. by rewrite !lookup_insert_ne. }
  rewrite !Hframe by done.
  rewrite Hhero, Hproducts, Hfeed, Hcta, Hnav.
  rewrite lookup_insert_ne, lookup_insert_eq by done.
  clear - Htag.
  list_cases Htag; subst tag; (repeat split; vm_compute; reflexivity).
Qed.
